(** * Model selection and recognition for per-word Gaussian HMMs

    A shallow embedding of [my_model_selectors.py] (the four selection
    strategies built on [ModelSelector]) and of [my_recognizer.py]
    ([recognize]), together with the properties the design document states
    about them.

    The code runs on top of three libraries that are not part of it:
    hmmlearn ([GaussianHMM(...).fit], [model.score]), scikit-learn ([KFold])
    and numpy / math ([np.mean], [math.log], float arithmetic), and on
    [asl_utils.combine_sequences].  The numeric and HMM libraries are an
    interface ([Externals]) the embedding is parametric in; [KFold] is
    modelled concretely. *)

From Stdlib Require Import ZArith List String Bool Arith Lia.
Import ListNotations.
Open Scope Z_scope.

(* ===================================================================== *)
(** ** Python values: exceptions, results, dictionaries                   *)
(* ===================================================================== *)

(** The exceptions the modelled code can meet.  [LibraryError] stands for
    whatever hmmlearn, numpy or [combine_sequences] raise. *)
Inductive exn : Type :=
| KeyError
| ValueError
| AttributeError
| UnboundLocalError
| LibraryError.

Inductive result (A : Type) : Type :=
| Ok (a : A)
| Raise (e : exn).
Arguments Ok {A} a.
Arguments Raise {A} e.

Definition raises {A : Type} (r : result A) : Prop :=
  match r with Ok _ => False | Raise _ => True end.

(** A Python [dict] keeps its keys in insertion order and the code depends
    on that order ([for word in self.words], [max(probs_dict, ...)]), so a
    dict is the list of its items in insertion order. *)
Section Dict.
Context {K V : Type} (eqb : K -> K -> bool).

Definition dict_keys (d : list (K * V)) : list K := map fst d.

(** [d[k]] *)
Fixpoint dict_get (d : list (K * V)) (k : K) : result V :=
  match d with
  | [] => Raise KeyError
  | (k', v) :: d' => if eqb k' k then Ok v else dict_get d' k
  end.

(** [d[k] = v]: an existing key keeps its position, a new one goes last. *)
Fixpoint dict_set (d : list (K * V)) (k : K) (v : V) : list (K * V) :=
  match d with
  | [] => [(k, v)]
  | (k', v') :: d' =>
      if eqb k' k then (k', v) :: d' else (k', v') :: dict_set d' k v
  end.
End Dict.

(** [range(a, b)] on Python integers. *)
Definition range (a b : Z) : list Z :=
  map (fun i => a + Z.of_nat i) (seq 0 (Z.to_nat (b - a))).

(* ===================================================================== *)
(** ** KFold                                                              *)
(* ===================================================================== *)

(** Modelled from the spec: scikit-learn's [KFold] is not part of the
    repository.  The design document gives the splitter's contract
    ("split(sequence_count, fold_count) -> sequence of (train_indices,
    test_indices)", train/test partitions of the sequence indices); the
    code builds it as [KFold()], without shuffling. *)
Record KFold : Type := { n_splits : nat }.

(** Modelled from the spec: the default of [KFold()] is not in the code; the
    selector's configuration gives "fold count=3 (CV only)", the default of
    the scikit-learn releases the code was written for. *)
Definition KFold_default : KFold := {| n_splits := 3 |}.

(** Modelled from the spec: the folds of scikit-learn's unshuffled
    [KFold].  The first [n mod n_splits] folds hold one index more than
    the rest. *)
Definition fold_sizes (k n : nat) : list nat :=
  map (fun i => (n / k + (if i <? n mod k then 1 else 0))%nat) (seq 0 k).

(** Test folds are consecutive runs of indices. *)
Fixpoint test_folds (sizes : list nat) (current : nat) : list (list nat) :=
  match sizes with
  | [] => []
  | fold_size :: rest =>
      seq current fold_size :: test_folds rest (current + fold_size)
  end.

Definition mem_nat (i : nat) (l : list nat) : bool := existsb (Nat.eqb i) l.

(** Modelled from the spec: [kf.split(X)] for [n = len(X)], the
    [(train_index, test_index)] pairs in the order they are yielded, each
    train set the indices outside the test run; more folds than samples
    is a [ValueError]. *)
Definition KFold_split (kf : KFold) (n : nat)
  : result (list (list nat * list nat)) :=
  if (n <? n_splits kf)%nat then Raise ValueError
  else
    Ok (map (fun test_index =>
               (filter (fun i => negb (mem_nat i test_index)) (seq 0 n),
                test_index))
            (test_folds (fold_sizes (n_splits kf) n) 0)).

(* ===================================================================== *)
(** ** The external libraries                                             *)
(* ===================================================================== *)

(** What the code asks of numpy, math and hmmlearn.  Floats are kept
    abstract: the code only compares them and combines them with library
    arithmetic.  A library call that raises is [None]. *)
Class Externals : Type := {
  float : Type;
  (** [a < b] on floats; [a > b] is [fltb b a] *)
  fltb : float -> float -> bool;
  fadd : float -> float -> float;
  fsub : float -> float -> float;
  fmul : float -> float -> float;
  (** conversion of a Python integer in mixed arithmetic *)
  of_int : Z -> float;
  (** [float('inf')] and [float('-inf')] *)
  inf : float;
  neg_inf : float;
  (** [math.log] on a positive integer *)
  flog : Z -> float;
  (** [np.mean] of a list of floats *)
  np_mean : list float -> float;

  (** one observation sequence; the feature matrix of a word *)
  sequence : Type;
  array : Type;
  (** [X.shape[1]], the number of features per frame *)
  shape1 : array -> Z;
  (** [asl_utils.combine_sequences(split_index_list, sequences)] *)
  combine_sequences : list nat -> list sequence -> option (array * list Z);

  (** the parameters an HMM has after training *)
  hmm_params : Type;
  (** [GaussianHMM(n_components, covariance_type="diag", n_iter,
      random_state, verbose=False).fit(X, lengths)], its arguments in the
      order [n_components], [n_iter], [random_state], [X], [lengths] *)
  hmm_fit : Z -> Z -> Z -> array -> list Z -> option hmm_params;
}.

(** A fitted [GaussianHMM] object: the constructor argument
    [n_components], the feature count [fit] reads off the data, and the
    trained parameters. *)
Record GaussianHMM `{Externals} : Type := {
  n_components : Z;
  n_features : Z;
  params : hmm_params
}.

(** [model.score(X, lengths)] of a fitted model. *)
Class Scorer `{Externals} : Type :=
  hmm_score : GaussianHMM -> array -> list Z -> option float.

(** What [base_model] prints under [verbose]. *)
Inductive line : Type :=
| model_created (word : string) (num_states : Z)
| failure_on (word : string) (num_states : Z).

(* ===================================================================== *)
(** ** ModelSelector                                                      *)
(* ===================================================================== *)

Section Selectors.
Context {EX : Externals} {SC : Scorer}.

(** The attributes of a selector instance.  [self.words] and
    [self.hwords] are not copies: they are the two dict objects handed to
    [__init__], which live in the heap below. *)
Record ModelSelector : Type := {
  sequences : list sequence;
  X : array;
  lengths : list Z;
  this_word : string;
  n_constant : Z;
  min_n_components : Z;
  max_n_components : Z;
  random_state : Z;
  verbose : bool
}.

(** The objects a [select()] call can reach: the caller's two dicts, the
    selector instance and standard output.  numpy arrays are only read
    by the code, so they are stored by value. *)
Record heap : Type := {
  all_word_sequences : list (string * list sequence);
  all_word_Xlengths : list (string * (array * list Z));
  self : ModelSelector;
  stdout : list line
}.

(** [ModelSelector.__init__] *)
Definition ModelSelector_init
    (all_word_sequences : list (string * list sequence))
    (all_word_Xlengths : list (string * (array * list Z)))
    (this_word : string)
    (n_constant min_n_components max_n_components random_state : Z)
    (verbose : bool) : result heap :=
  match dict_get String.eqb all_word_sequences this_word with
  | Raise e => Raise e
  | Ok seqs =>
      match dict_get String.eqb all_word_Xlengths this_word with
      | Raise e => Raise e
      | Ok (x, l) =>
          Ok {| all_word_sequences := all_word_sequences;
                all_word_Xlengths := all_word_Xlengths;
                self := {| sequences := seqs; X := x; lengths := l;
                           this_word := this_word;
                           n_constant := n_constant;
                           min_n_components := min_n_components;
                           max_n_components := max_n_components;
                           random_state := random_state;
                           verbose := verbose |};
                stdout := [] |}
      end
  end.

(** *** Statements: state and exceptions *)

(** A Python statement or expression: it runs on a heap and either
    yields a value or raises; the heap it leaves behind survives a
    raise. *)
Definition M (A : Type) : Type := heap -> result A * heap.

Definition ret {A : Type} (a : A) : M A := fun h => (Ok a, h).

Definition bind {A B : Type} (m : M A) (k : A -> M B) : M B :=
  fun h =>
    match m h with
    | (Ok a, h') => k a h'
    | (Raise e, h') => (Raise e, h')
    end.

Definition raise {A : Type} (e : exn) : M A := fun h => (Raise e, h).

(** [try: body / except: handler] with a bare [except]. *)
Definition try_except {A : Type} (body handler : M A) : M A :=
  fun h =>
    match body h with
    | (Ok a, h') => (Ok a, h')
    | (Raise _, h') => handler h'
    end.

Definition lift {A : Type} (r : result A) : M A := fun h => (r, h).

(** a library call: [None] is an exception raised inside the library *)
Definition call {A : Type} (o : option A) : M A :=
  match o with Some a => ret a | None => raise LibraryError end.

Definition get_self : M ModelSelector := fun h => (Ok (self h), h).
Definition get_words : M (list (string * list sequence)) :=
  fun h => (Ok (all_word_sequences h), h).
Definition get_hwords : M (list (string * (array * list Z))) :=
  fun h => (Ok (all_word_Xlengths h), h).

(** [self.X, self.lengths = v]: rebinds the two attributes. *)
Definition set_X_lengths (v : array * list Z) : M unit :=
  fun h =>
    let s := self h in
    (Ok tt,
     {| all_word_sequences := all_word_sequences h;
        all_word_Xlengths := all_word_Xlengths h;
        self := {| sequences := sequences s; X := fst v; lengths := snd v;
                   this_word := this_word s;
                   n_constant := n_constant s;
                   min_n_components := min_n_components s;
                   max_n_components := max_n_components s;
                   random_state := random_state s;
                   verbose := verbose s |};
        stdout := stdout h |}).

Definition print (l : line) : M unit :=
  fun h =>
    (Ok tt,
     {| all_word_sequences := all_word_sequences h;
        all_word_Xlengths := all_word_Xlengths h;
        self := self h;
        stdout := stdout h ++ [l] |}).

Definition when (b : bool) (m : M unit) : M unit :=
  if b then m else ret tt.

(** [for a in l: body], the loop's local variables threaded as [s]. *)
Fixpoint for_loop {A S : Type} (l : list A) (body : A -> S -> M S) (s : S)
  : M S :=
  match l with
  | [] => ret s
  | a :: l' => bind (body a s) (for_loop l' body)
  end.

End Selectors.

Declare Scope py_scope.
Delimit Scope py_scope with py.
Notation "x <- m ;; k" := (bind m (fun x => k))
  (at level 100, m at next level, right associativity) : py_scope.
Notation "' p <- m ;; k" := (bind m (fun p => k))
  (at level 100, p pattern, m at next level, right associativity) : py_scope.
Notation "m ;; k" := (bind m (fun _ => k))
  (at level 100, right associativity) : py_scope.
Open Scope py_scope.

Section Strategies.
Context {EX : Externals} {SC : Scorer}.

(** [model.score(X, lengths)] where [model] may be [None]: calling a
    method of [None] is an [AttributeError]. *)
Definition py_score (model : option GaussianHMM) (x : array) (l : list Z)
  : result float :=
  match model with
  | None => Raise AttributeError
  | Some m =>
      match hmm_score m x l with
      | Some v => Ok v
      | None => Raise LibraryError
      end
  end.

Definition model_score (model : option GaussianHMM) (x : array)
    (l : list Z) : M float :=
  lift (py_score model x l).

(** [ModelSelector.base_model] *)
Definition base_model (num_states : Z) : M (option GaussianHMM) :=
  s <- get_self ;;
  try_except
    (p <- call (hmm_fit num_states 1000 (random_state s) (X s) (lengths s)) ;;
     let hmm_model := {| n_components := num_states;
                         n_features := shape1 (X s);
                         params := p |} in
     when (verbose s) (print (model_created (this_word s) num_states)) ;;
     ret (Some hmm_model))
    (when (verbose s) (print (failure_on (this_word s) num_states)) ;;
     ret None).

(** *** SelectorConstant *)

Definition SelectorConstant_select : M (option GaussianHMM) :=
  s <- get_self ;;
  let best_num_components := n_constant s in
  base_model best_num_components.

(** *** SelectorBIC *)

(** [math.log(n)] for an integer [n]: a domain error below 1. *)
Definition math_log (n : Z) : M float :=
  if n <=? 0 then raise ValueError else ret (flog n).

Definition score_BIC (num_states : Z) : M float :=
  model <- base_model num_states ;;
  s <- get_self ;;
  logL <- model_score model (X s) (lengths s) ;;
  match model with
  | None => raise AttributeError
  | Some m =>
      let p := n_components m ^ 2 + 2 * n_components m * n_features m in
      logN <- math_log (Z.of_nat (List.length (sequences s))) ;;
      let score := fadd (fmul (of_int (-2)) logL) (fmul (of_int p) logN) in
      ret score
  end.

(** The search loop of [SelectorBIC.select]; its locals are
    [(min_score, best_num_components)]. *)
Definition SelectorBIC_search : M (float * Z) :=
  s <- get_self ;;
  for_loop (range (min_n_components s) (max_n_components s + 1))
    (fun num '(min_score, best_num_components) =>
       try_except
         (score <- score_BIC num ;;
          if fltb score min_score
          then ret (score, num)
          else ret (min_score, best_num_components))
         (ret (min_score, best_num_components)))
    (inf, n_constant s).

Definition SelectorBIC_select : M (option GaussianHMM) :=
  '(_, best_num_components) <- SelectorBIC_search ;;
  base_model best_num_components.

(** *** SelectorDIC *)

Definition score_DIC (other_words : list (array * list Z))
    (num_states : Z) : M float :=
  model <- base_model num_states ;;
  anti_log_likelihoods <-
    for_loop other_words
      (fun word acc =>
         v <- model_score model (fst word) (snd word) ;;
         ret (acc ++ [v]))
      [] ;;
  s <- get_self ;;
  own <- model_score model (X s) (lengths s) ;;
  let score := fsub own (np_mean anti_log_likelihoods) in
  ret score.

(** The flattened data of every word but [this_word], in the order of
    [self.words]. *)
Definition SelectorDIC_other_words : M (list (array * list Z)) :=
  s <- get_self ;;
  words <- get_words ;;
  hwords <- get_hwords ;;
  for_loop (dict_keys words)
    (fun word other_words =>
       if negb (String.eqb word (this_word s))
       then v <- lift (dict_get String.eqb hwords word) ;;
            ret (other_words ++ [v])
       else ret other_words)
    [].

(** Locals of the search loop: [(max_score, best_num_components)]. *)
Definition SelectorDIC_search : M (float * Z) :=
  s <- get_self ;;
  other_words <- SelectorDIC_other_words ;;
  for_loop (range (min_n_components s) (max_n_components s + 1))
    (fun num '(max_score, best_num_components) =>
       try_except
         (score <- score_DIC other_words num ;;
          if fltb max_score score
          then ret (score, num)
          else ret (max_score, best_num_components))
         (ret (max_score, best_num_components)))
    (neg_inf, n_constant s).

Definition SelectorDIC_select : M (option GaussianHMM) :=
  '(_, best_num_components) <- SelectorDIC_search ;;
  base_model best_num_components.

(** *** SelectorCV *)

(** One iteration of the fold loop of [cv_score]; it yields the new
    value of the local [log_likelihood]. *)
Definition cv_fold (num_states : Z) (fold : list nat * list nat)
  : M float :=
  let '(train_index, test_index) := fold in
  s <- get_self ;;
  train <- call (combine_sequences train_index (sequences s)) ;;
  set_X_lengths train ;;
  '(test_X, test_lengths) <-
    call (combine_sequences test_index (sequences s)) ;;
  model <- base_model num_states ;;
  log_likelihood <- model_score model test_X test_lengths ;;
  ret log_likelihood.

(** [log_likelihood] is a local the loop assigns: it is unbound ([None])
    until the first fold has been scored. *)
Definition cv_score (kf : KFold) (num_states : Z) : M float :=
  s <- get_self ;;
  if (2 <? List.length (sequences s))%nat then
    folds <- lift (KFold_split kf (List.length (sequences s))) ;;
    log_likelihood <-
      for_loop folds
        (fun fold (_ : option float) =>
           v <- cv_fold num_states fold ;; ret (Some v))
        None ;;
    match log_likelihood with
    | Some v => ret v
    | None => raise UnboundLocalError
    end
  else
    model <- base_model num_states ;;
    log_likelihood <- model_score model (X s) (lengths s) ;;
    ret log_likelihood.

(** Locals of the search loop:
    [(log_likelihoods, max_avg, best_num_components)]. *)
Definition SelectorCV_search : M (list float * float * Z) :=
  s <- get_self ;;
  let kf := KFold_default in
  for_loop (range (min_n_components s) (max_n_components s + 1))
    (fun num '(log_likelihoods, max_avg, best_num_components) =>
       try_except
         (v <- cv_score kf num ;;
          let log_likelihoods := log_likelihoods ++ [v] in
          let cv_score_avg := np_mean log_likelihoods in
          if fltb max_avg cv_score_avg
          then ret (log_likelihoods, cv_score_avg, num)
          else ret (log_likelihoods, max_avg, best_num_components))
         (ret (log_likelihoods, max_avg, best_num_components)))
    ([], neg_inf, n_constant s).

Definition SelectorCV_select : M (option GaussianHMM) :=
  '(_, best_num_components) <- SelectorCV_search ;;
  base_model best_num_components.

(* =================================================================== *)
(** ** Recognizer                                                       *)
(* =================================================================== *)

(** [max(probs_dict, key=probs_dict.get)]: the first key whose value no
    later value exceeds; [max] of an empty dict is a [ValueError]. *)
Definition py_max (probs_dict : list (string * float)) : result string :=
  match probs_dict with
  | [] => Raise ValueError
  | item :: rest =>
      Ok (fst (fold_left
                 (fun max_item item =>
                    if fltb (snd max_item) (snd item)
                    then item else max_item)
                 rest item))
  end.

(** The inner loop of [recognize]: a word whose model fails to score is
    left out of the table. *)
Definition score_table (models : list (string * option GaussianHMM))
    (x : array) (l : list Z) : list (string * float) :=
  fold_left
    (fun probs_dict w =>
       match dict_get String.eqb models w with
       | Ok model =>
           match py_score model x l with
           | Ok v => dict_set String.eqb probs_dict w v
           | Raise _ => probs_dict
           end
       | Raise _ => probs_dict
       end)
    (dict_keys models) [].

(** [recognize(models, test_set)], with [test_set] given by the dict
    [test_set.get_all_Xlengths()] returns. *)
Fixpoint recognize_items (models : list (string * option GaussianHMM))
    (all_word_Xlengths : list (Z * (array * list Z)))
    (test_words : list Z)
    (probabilities : list (list (string * float)))
    (guesses : list string)
  : result (list (list (string * float)) * list string) :=
  match test_words with
  | [] => Ok (probabilities, guesses)
  | test_word :: rest =>
      match dict_get Z.eqb all_word_Xlengths test_word with
      | Raise e => Raise e
      | Ok (x, l) =>
          let probs_dict := score_table models x l in
          match py_max probs_dict with
          | Raise e => Raise e
          | Ok guess =>
              recognize_items models all_word_Xlengths rest
                (probabilities ++ [probs_dict]) (guesses ++ [guess])
          end
      end
  end.

Definition recognize (models : list (string * option GaussianHMM))
    (all_word_Xlengths : list (Z * (array * list Z)))
  : result (list (list (string * float)) * list string) :=
  recognize_items models all_word_Xlengths (dict_keys all_word_Xlengths)
    [] [].

End Strategies.

(* ===================================================================== *)
(** ** Specification vocabulary                                           *)
(* ===================================================================== *)

Section Vocabulary.
Context {EX : Externals} {SC : Scorer}.

(** The heap, standard output apart. *)
Definition same_objects (h h' : heap) : Prop :=
  all_word_sequences h' = all_word_sequences h /\
  all_word_Xlengths h' = all_word_Xlengths h /\
  self h' = self h.

(** The model [base_model(k)] builds from the selector's current data,
    [None] when the fit fails. *)
Definition fit_model (s : ModelSelector) (k : Z) : option GaussianHMM :=
  match hmm_fit k 1000 (random_state s) (X s) (lengths s) with
  | Some p => Some {| n_components := k;
                      n_features := shape1 (X s);
                      params := p |}
  | None => None
  end.

(** The value of a result, the exception forgotten. *)
Definition ok_of {A : Type} (r : result A) : option A :=
  match r with Ok a => Some a | Raise _ => None end.

(** The heap as far as no strategy touches it: everything but [self.X],
    [self.lengths] and standard output. *)
Definition same_config (h h' : heap) : Prop :=
  all_word_sequences h' = all_word_sequences h /\
  all_word_Xlengths h' = all_word_Xlengths h /\
  sequences (self h') = sequences (self h) /\
  this_word (self h') = this_word (self h) /\
  n_constant (self h') = n_constant (self h) /\
  min_n_components (self h') = min_n_components (self h) /\
  max_n_components (self h') = max_n_components (self h) /\
  random_state (self h') = random_state (self h) /\
  verbose (self h') = verbose (self h).

(** The candidates of a search, in the order they are tried. *)
Definition candidates (s : ModelSelector) : list Z :=
  range (min_n_components s) (max_n_components s + 1).

(** *** The criteria, as the design document gives them *)

(** BIC of the candidate [k]: [-2 L + p ln N] with [p = k^2 + 2 k F], for
    [L] the log-likelihood of the word's own data under the model fitted
    at [k], [F] the number of features and [N] the number of training
    sequences; nothing when the fit or the scoring fails. *)
Definition BIC_spec (s : ModelSelector) (k : Z) : option float :=
  match fit_model s k with
  | None => None
  | Some m =>
      match hmm_score m (X s) (lengths s) with
      | None => None
      | Some L =>
          let N := Z.of_nat (List.length (sequences s)) in
          let F := shape1 (X s) in
          let p := k ^ 2 + 2 * k * F in
          if N <=? 0 then None
          else Some (fadd (fmul (of_int (-2)) L) (fmul (of_int p) (flog N)))
      end
  end.

(** The scores of one model on a list of data sets: all of them or
    nothing. *)
Fixpoint scores_all (m : GaussianHMM) (others : list (array * list Z))
  : option (list float) :=
  match others with
  | [] => Some []
  | word :: rest =>
      match hmm_score m (fst word) (snd word), scores_all m rest with
      | Some v, Some vs => Some (v :: vs)
      | _, _ => None
      end
  end.

(** DIC of the candidate [k]: the log-likelihood of the word's own data
    minus the mean log-likelihood of the other words' data, under the
    model fitted at [k]. *)
Definition DIC_spec (s : ModelSelector) (others : list (array * list Z))
    (k : Z) : option float :=
  match fit_model s k with
  | None => None
  | Some m =>
      match scores_all m others, hmm_score m (X s) (lengths s) with
      | Some anti, Some own => Some (fsub own (np_mean anti))
      | _, _ => None
      end
  end.

(** The flattened data of the words other than [this_word], in corpus
    order; nothing when a word has no flattened data. *)
Fixpoint other_words_of (this_word : string) (words : list string)
    (hwords : list (string * (array * list Z)))
  : option (list (array * list Z)) :=
  match words with
  | [] => Some []
  | word :: rest =>
      if negb (String.eqb word this_word) then
        match dict_get String.eqb hwords word,
              other_words_of this_word rest hwords with
        | Ok v, Some vs => Some (v :: vs)
        | _, _ => None
        end
      else other_words_of this_word rest hwords
  end.


(** *** Searching for the best candidate *)

(** One step of a search: the candidate [num] replaces the best one so
    far when it has a score and that score is strictly better. *)
Definition pick (better : float -> float -> bool) (cand : Z -> option float)
    (acc : float * Z) (num : Z) : float * Z :=
  match cand num with
  | Some score => if better score (fst acc) then (score, num) else acc
  | None => acc
  end.

Definition search (better : float -> float -> bool)
    (cand : Z -> option float) (l : list Z) (init : float * Z)
  : float * Z :=
  fold_left (pick better cand) l init.

(** [a > b] on floats. *)
Definition fgtb (a b : float) : bool := fltb b a.

(** *** Frame and totality of statements *)

(** The statement keeps the heap property [I], whether it raises or
    not. *)
Definition preserves {A : Type} (I : heap -> Prop) (m : M A) : Prop :=
  forall h, I h -> I (snd (m h)).


End Vocabulary.

(** What the proofs ask of float comparison; IEEE comparison has both
    properties (a comparison with a not-a-number is false). *)
Class FloatOrder {EX : Externals} : Prop := {
  fltb_irrefl : forall a : float, fltb a a = false;
  fltb_trans : forall a b c : float,
      fltb a b = true -> fltb b c = true -> fltb a c = true
}.

(* ===================================================================== *)
(** ** A small instance of the libraries                                  *)
(* ===================================================================== *)

(** Stand-ins for numpy and hmmlearn that compute, so that the code can be
    run on concrete corpora: integers with the two infinities and a
    not-a-number for floats, one integer feature per frame, and a toy HMM
    that memorises its training frames.  [fit] fails on fewer frames than
    states, [score] fails on an empty matrix. *)
Module Demo.

Inductive num : Type := NaN | NInf | Fin (z : Z) | PInf.

Definition ltb (a b : num) : bool :=
  match a, b with
  | Fin x, Fin y => x <? y
  | NInf, Fin _ | NInf, PInf | Fin _, PInf => true
  | _, _ => false
  end.

Definition add (a b : num) : num :=
  match a, b with
  | Fin x, Fin y => Fin (x + y)
  | NaN, _ | _, NaN | PInf, NInf | NInf, PInf => NaN
  | PInf, _ | _, PInf => PInf
  | NInf, _ | _, NInf => NInf
  end.

Definition opp (a : num) : num :=
  match a with
  | NaN => NaN
  | NInf => PInf
  | Fin x => Fin (- x)
  | PInf => NInf
  end.

Definition sub (a b : num) : num := add a (opp b).

Definition mul (a b : num) : num :=
  match a, b with
  | Fin x, Fin y => Fin (x * y)
  | _, _ => NaN
  end.

Definition mean (l : list num) : num :=
  match l with
  | [] => NaN
  | _ => match fold_left add l (Fin 0) with
         | Fin t => Fin (t / Z.of_nat (List.length l))
         | other => other
         end
  end.

(** [combine_sequences]: the chosen sequences concatenated, with their
    lengths; an index out of range raises. *)
Fixpoint combine (split_index_list : list nat) (sequences : list (list Z))
  : option (list Z * list Z) :=
  match split_index_list with
  | [] => Some ([], [])
  | idx :: rest =>
      match nth_error sequences idx, combine rest sequences with
      | Some sq, Some (x, l) => Some (sq ++ x, Z.of_nat (List.length sq) :: l)
      | _, _ => None
      end
  end.

#[export] Instance externals : Externals := {|
  float := num;
  fltb := ltb;
  fadd := add;
  fsub := sub;
  fmul := mul;
  of_int := Fin;
  inf := PInf;
  neg_inf := NInf;
  flog := fun n => Fin (Z.log2 n);
  np_mean := mean;
  sequence := list Z;
  array := list Z;
  shape1 := fun _ => 1;
  combine_sequences := combine;
  hmm_params := list Z;
  hmm_fit := fun n_components _ _ x _ =>
    if Z.of_nat (List.length x) <? n_components then None else Some x
|}.

(** The score of a matrix: minus the distance of its frames to the first
    training frame. *)
#[export] Instance scorer : Scorer := fun m x _ =>
  match x with
  | [] => None
  | _ =>
      let c := hd 0 (params m) in
      Some (Fin (- fold_left (fun acc v => acc + Z.abs (v - c)) x 0))
  end.

End Demo.

(** Concrete corpora and selectors over the instance above. *)
Module Scenario.
Import Demo.
Open Scope string_scope.

(** The flattened data of a word, as the corpus derives it. *)
Definition flatten (seqs : list (list Z)) : list Z * list Z :=
  (List.concat seqs, map (fun sq => Z.of_nat (List.length sq)) seqs).

(** Three words; "D" has a single training sequence. *)
Definition training_sequences : list (string * list (list Z)) :=
  [("A", [[1; 2]; [3]; [4; 5; 6]]);
   ("B", [[10; 11]]);
   ("D", [[7; 8; 9; 8; 7]])].

Definition training_Xlengths : list (string * (list Z * list Z)) :=
  map (fun item => (fst item, flatten (snd item))) training_sequences.

(** A corpus in which the word "C" has an empty recording, which no model
    can score. *)
Definition sparse_sequences : list (string * list (list Z)) :=
  [("A", [[1; 2]; [3]; [4; 5; 6]]);
   ("B", [[10; 11]]);
   ("C", [[]])].

Definition sparse_Xlengths : list (string * (list Z * list Z)) :=
  map (fun item => (fst item, flatten (snd item))) sparse_sequences.

(** The heap right after [ModelSelector(words, hwords, this_word,
    n_constant, min_n_components, max_n_components)], for a word of the
    corpus. *)
Definition selector (words : list (string * list (list Z)))
    (hwords : list (string * (list Z * list Z)))
    (word : string) (seqs : list (list Z))
    (n_constant min_n_components max_n_components : Z) : heap :=
  {| all_word_sequences := words;
     all_word_Xlengths := hwords;
     self := {| sequences := seqs;
                X := fst (flatten seqs);
                lengths := snd (flatten seqs);
                this_word := word;
                n_constant := n_constant;
                min_n_components := min_n_components;
                max_n_components := max_n_components;
                random_state := 14;
                verbose := false |};
     stdout := [] |}.

Definition seqs_A : list (list Z) := [[1; 2]; [3]; [4; 5; 6]].
Definition seqs_D : list (list Z) := [[7; 8; 9; 8; 7]].

(** Word "A" with the default configuration, on either corpus. *)
Definition selector_A : heap :=
  selector training_sequences training_Xlengths "A" seqs_A 3 2 10.

Definition sparse_selector_A : heap :=
  selector sparse_sequences sparse_Xlengths "A" seqs_A 3 2 10.

(** Word "A" with a single candidate state count. *)
Definition selector_A_one_candidate : heap :=
  selector training_sequences training_Xlengths "A" seqs_A 3 2 2.

(** Word "A" with a fallback state count below the search interval. *)
Definition selector_A_low_fallback : heap :=
  selector training_sequences training_Xlengths "A" seqs_A 1 2 10.

(** Word "D", whose only sequence has five frames. *)
Definition selector_D : heap :=
  selector training_sequences training_Xlengths "D" seqs_D 3 2 10.

(** Word "B" searched above the two frames it has: no candidate fits. *)
Definition selector_B_starved : heap :=
  selector training_sequences training_Xlengths "B" [[10; 11]] 3 3 10.


(** A model of "A" that scores, a word without a model, and a test set
    whose second item is an empty recording. *)
Definition model_A : GaussianHMM :=
  {| n_components := 3; n_features := 1; params := [1; 2; 3; 4; 5; 6] |}.

Definition models : list (string * option GaussianHMM) :=
  [("A", Some model_A); ("B", None)].

Definition test_Xlengths : list (Z * (list Z * list Z)) :=
  [(0, ([1; 2], [2])); (1, ([], [0]))].

End Scenario.

(* ===================================================================== *)
(** ** Vocabulary for the remaining behaviour                             *)
(* ===================================================================== *)

Section MoreVocabulary.
Context {EX : Externals} {SC : Scorer}.

(** The line [base_model(k)] prints under [verbose]. *)
Definition log_line (s : ModelSelector) (k : Z) : line :=
  match fit_model s k with
  | Some _ => model_created (this_word s) k
  | None => failure_on (this_word s) k
  end.

(** What a run of [base_model] over the state counts [ks] prints. *)
Definition log_lines (s : ModelSelector) (ks : list Z) : list line :=
  if verbose s then map (log_line s) ks else [].

(** A scoring statement that fits once, at [k], prints nothing else and
    leaves the objects alone. *)
Definition prints_one_fit (score : Z -> M float) : Prop :=
  forall k h,
    stdout (snd (score k h)) = stdout h ++ log_lines (self h) [k] /\
    same_objects h (snd (score k h)).

(** The log-likelihood of the word's own data under the model fit at
    [k]. *)
Definition own_score (s : ModelSelector) (k : Z) : option float :=
  match fit_model s k with
  | Some m => hmm_score m (X s) (lengths s)
  | None => None
  end.

(** One fold of cross-validation at [k]: fit on the train sequences,
    score the test sequences. *)
Definition fold_score (s : ModelSelector) (k : Z) (fold : list nat * list nat)
  : option float :=
  match combine_sequences (fst fold) (sequences s) with
  | None => None
  | Some train =>
      match combine_sequences (snd fold) (sequences s) with
      | None => None
      | Some test =>
          match hmm_fit k 1000 (random_state s) (fst train) (snd train) with
          | None => None
          | Some p =>
              hmm_score {| n_components := k;
                           n_features := shape1 (fst train);
                           params := p |} (fst test) (snd test)
          end
      end
  end.

(** The score of the last fold, provided every fold fits and scores;
    [cur] is the score so far. *)
Fixpoint last_fold_score (s : ModelSelector) (k : Z)
    (folds : list (list nat * list nat)) (cur : option float)
  : option float :=
  match folds with
  | [] => cur
  | fold :: rest =>
      match fold_score s k fold with
      | Some v => last_fold_score s k rest (Some v)
      | None => None
      end
  end.

(** What [cv_score(k)] returns, nothing when it raises. *)
Definition cv_outcome (s : ModelSelector) (k : Z) : option float :=
  if (2 <? List.length (sequences s))%nat then
    match KFold_split KFold_default (List.length (sequences s)) with
    | Ok folds => last_fold_score s k folds None
    | Raise _ => None
    end
  else own_score s k.

(** One step of the cross-validation search on its locals
    [(log_likelihoods, max_avg, best_num_components)]. *)
Definition cv_pick (cand : Z -> option float)
    (acc : list float * float * Z) (num : Z) : list float * float * Z :=
  match cand num with
  | Some v =>
      let log_likelihoods := fst (fst acc) ++ [v] in
      let cv_score_avg := np_mean log_likelihoods in
      if fltb (snd (fst acc)) cv_score_avg
      then (log_likelihoods, cv_score_avg, num)
      else (log_likelihoods, snd (fst acc), snd acc)
  | None => acc
  end.

Definition cv_search (cand : Z -> option float) (l : list Z)
    (init : list float * float * Z) : list float * float * Z :=
  fold_left (cv_pick cand) l init.

(** The heaps a cross-validation search passes through: the configuration
    stays, and the data of a word too short for folds stays as well. *)
Definition cv_stable (h0 h1 : heap) : Prop :=
  same_config h0 h1 /\
  ((List.length (sequences (self h0)) <= 2)%nat -> self h1 = self h0).

(** The selector holds the train sequences of one of the folds of its
    word as [X] and [lengths]. *)
Definition holds_train_data (h0 h1 : heap) : Prop :=
  same_config h0 h1 /\
  exists fold folds,
    KFold_split KFold_default (List.length (sequences (self h0))) =
      Ok folds /\
    In fold folds /\
    combine_sequences (fst fold) (sequences (self h0)) =
      Some (X (self h1), lengths (self h1)).

(** The scores a list of candidates contributes, in order. *)
Definition outcomes (cand : Z -> option float) (l : list Z) : list float :=
  flat_map (fun k => match cand k with Some v => [v] | None => [] end) l.

(** Whether a model scores the item. *)
Definition scores_item (x : array) (l : list Z)
    (item : string * option GaussianHMM) : bool :=
  match py_score (snd item) x l with Ok _ => true | Raise _ => false end.

(** The score table of an item, read off the models one by one. *)
Definition scored_entries (x : array) (l : list Z)
    (models : list (string * option GaussianHMM)) : list (string * float) :=
  flat_map (fun item => match py_score (snd item) x l with
                        | Ok v => [(fst item, v)]
                        | Raise _ => []
                        end) models.

End MoreVocabulary.

(** More corpora and selectors over the computable instance. *)
Module Cases.
Import Demo.
Open Scope string_scope.

(** Word "A" with a search interval that holds no state count. *)
Definition selector_A_empty_interval : heap :=
  Scenario.selector Scenario.training_sequences Scenario.training_Xlengths
    "A" Scenario.seqs_A 3 5 4.

(** A corpus with the single word "A". *)
Definition lone_selector_A : heap :=
  Scenario.selector [("A", Scenario.seqs_A)]
    [("A", Scenario.flatten Scenario.seqs_A)] "A" Scenario.seqs_A 3 2 10.

(** A test set every item of which the model of "A" scores. *)
Definition scorable_Xlengths : list (Z * (list Z * list Z)) :=
  [(0, ([1; 2], [2])); (1, ([5], [1]))].

(** Two models that score the same on every item. *)
Definition twin_models : list (string * option GaussianHMM) :=
  [("A", Some Scenario.model_A); ("B", None); ("A2", Some Scenario.model_A)].

(** A word of the corpus without any training sequence. *)
Definition selector_E_no_sequences : heap :=
  Scenario.selector [("E", [])] [("E", Scenario.flatten [])] "E" [] 3 2 10.

End Cases.

(* ===================================================================== *)
(** ** Reasoning about statements                                         *)
(* ===================================================================== *)

Section Statements.
Context {EX : Externals} {SC : Scorer}.

Lemma same_objects_refl h : same_objects h h.
Proof. now repeat split. Qed.

Lemma same_objects_trans h1 h2 h3 :
  same_objects h1 h2 -> same_objects h2 h3 -> same_objects h1 h3.
Proof.
  intros (A1 & B1 & C1) (A2 & B2 & C2).
  repeat split; congruence.
Qed.

(** *** [base_model] *)

Lemma base_model_run (k : Z) (h : heap) :
  fst (base_model k h) = Ok (fit_model (self h) k) /\
  same_objects h (snd (base_model k h)).
Proof.
  unfold base_model, fit_model, bind, get_self, try_except, call, ret, raise.
  destruct (hmm_fit k 1000 (random_state (self h)) (X (self h))
              (lengths (self h))) as [p |]; simpl.
  - destruct (verbose (self h)); simpl; split; auto using same_objects_refl.
    now repeat split.
  - destruct (verbose (self h)); simpl; split; auto using same_objects_refl.
    now repeat split.
Qed.

Lemma fit_model_n_components s k m :
  fit_model s k = Some m -> n_components m = k.
Proof.
  unfold fit_model. destruct (hmm_fit _ _ _ _ _); intros E; inversion E.
  reflexivity.
Qed.

End Statements.

(* ===================================================================== *)
(** ** Searches                                                           *)
(* ===================================================================== *)

Section Search.
Context {EX : Externals} {SC : Scorer}.
Variable better : float -> float -> bool.
Variable cand : Z -> option float.

Lemma search_app l1 l2 init :
  search better cand (l1 ++ l2) init =
  search better cand l2 (search better cand l1 init).
Proof. unfold search. apply fold_left_app. Qed.

(** The result is the initial pair or a candidate with its score. *)
Lemma search_cases l init :
  search better cand l init = init \/
  (In (snd (search better cand l init)) l /\
   cand (snd (search better cand l init)) =
     Some (fst (search better cand l init))).
Proof.
  revert init. induction l as [| a l IH]; intros init.
  - now left.
  - change (search better cand (a :: l) init)
      with (search better cand l (pick better cand init a)).
    destruct (IH (pick better cand init a)) as [E | [Hin Hc]].
    + rewrite E. unfold pick.
      destruct (cand a) as [sc |] eqn:Ea; auto.
      destruct (better sc (fst init)); auto.
      right. simpl. auto.
    + right. split; [now right | exact Hc].
Qed.

(** Candidates without a score leave the search where it is. *)
Lemma search_all_fail l init :
  (forall k, In k l -> cand k = None) -> search better cand l init = init.
Proof.
  revert init. induction l as [| a l IH]; intros init H; auto.
  change (search better cand (a :: l) init)
    with (search better cand l (pick better cand init a)).
  unfold pick. rewrite (H a (or_introl eq_refl)). apply IH.
  intros k Hk. apply H. now right.
Qed.

Hypothesis better_irrefl : forall a, better a a = false.
Hypothesis better_trans :
  forall a b c, better a b = true -> better b c = true -> better a c = true.

(** No candidate is strictly better than the result, and the result is
    the initial score or strictly better than it. *)
Lemma search_optimal l init :
  (forall k sc, In k l -> cand k = Some sc ->
     better sc (fst (search better cand l init)) = false) /\
  (fst (search better cand l init) = fst init \/
   better (fst (search better cand l init)) (fst init) = true).
Proof.
  induction l as [| a l IH] using rev_ind.
  - simpl. split; [intros k sc [] | now left].
  - rewrite search_app. simpl. destruct IH as [IH1 IH2].
    set (acc := search better cand l init) in *.
    unfold pick. destruct (cand a) as [sa |] eqn:Ea.
    + destruct (better sa (fst acc)) eqn:Eb; simpl.
      * split.
        -- intros k sc Hin Hc. apply in_app_or in Hin.
           destruct Hin as [Hin | [Heq | []]].
           ++ destruct (better sc sa) eqn:E; auto.
              rewrite <- (IH1 k sc Hin Hc). symmetry.
              now apply better_trans with sa.
           ++ rewrite <- Heq, Ea in Hc. inversion Hc. apply better_irrefl.
        -- right. destruct IH2 as [<- | H]; auto.
           now apply better_trans with (fst acc).
      * split; auto.
        intros k sc Hin Hc. apply in_app_or in Hin.
        destruct Hin as [Hin | [Heq | []]].
        -- now apply IH1 with k.
        -- rewrite <- Heq, Ea in Hc. inversion Hc. subst sc. exact Eb.
    + split; auto.
      intros k sc Hin Hc. apply in_app_or in Hin.
      destruct Hin as [Hin | [Heq | []]].
      * now apply IH1 with k.
      * rewrite <- Heq, Ea in Hc. discriminate.
Qed.

(** A candidate that beats the initial score forces a selection. *)
Lemma search_selects l init k sc :
  In k l -> cand k = Some sc -> better sc (fst init) = true ->
  In (snd (search better cand l init)) l /\
  cand (snd (search better cand l init)) =
    Some (fst (search better cand l init)).
Proof.
  intros Hin Hc Hb.
  destruct (search_cases l init) as [E | H]; auto.
  destruct (search_optimal l init) as [H1 _].
  specialize (H1 k sc Hin Hc). rewrite E in H1. congruence.
Qed.

(** Ties: when the candidates before [j] are strictly worse than [j] and
    those after it are no better, [j] is the one selected. *)
Lemma search_first_best l1 j l2 init sc :
  cand j = Some sc ->
  better sc (fst init) = true ->
  (forall k t, In k l1 -> cand k = Some t -> better sc t = true) ->
  (forall k t, In k l2 -> cand k = Some t -> better t sc = false) ->
  search better cand (l1 ++ j :: l2) init = (sc, j).
Proof.
  intros Hj Hinit Hbefore Hafter.
  rewrite search_app. simpl.
  assert (Hacc : better sc (fst (search better cand l1 init)) = true).
  { destruct (search_cases l1 init) as [E | [Hin Hc]].
    - now rewrite E.
    - now apply Hbefore with (snd (search better cand l1 init)). }
  unfold search at 1. simpl. fold (search better cand l1 init).
  unfold pick at 2. rewrite Hj, Hacc.
  clear Hacc Hbefore. induction l2 as [| a l2 IH]; simpl; auto.
  unfold pick at 2. destruct (cand a) as [t |] eqn:Ea.
  - simpl. rewrite (Hafter a t (or_introl eq_refl) Ea).
    apply IH. intros k t' Hk. apply Hafter. now right.
  - apply IH. intros k t' Hk. apply Hafter. now right.
Qed.

End Search.

(* ===================================================================== *)
(** ** The BIC and DIC strategies compute the documented criteria         *)
(* ===================================================================== *)

Section Refinement.
Context {EX : Externals} {SC : Scorer}.

(** Running a statement after another one. *)
Lemma bind_run {A B : Type} (m : M A) (k : A -> M B) (h : heap) :
  bind m k h =
  match fst (m h) with
  | Ok a => k a (snd (m h))
  | Raise e => (Raise e, snd (m h))
  end.
Proof. unfold bind. now destruct (m h) as [[a | e] h']. Qed.

Lemma try_except_run {A : Type} (body handler : M A) (h : heap) :
  try_except body handler h =
  match fst (body h) with
  | Ok a => (Ok a, snd (body h))
  | Raise _ => handler (snd (body h))
  end.
Proof. unfold try_except. now destruct (body h) as [[a | e] h']. Qed.

Lemma bind_get_self {B : Type} (k : ModelSelector -> M B) (h : heap) :
  bind get_self k h = k (self h) h.
Proof. reflexivity. Qed.

Lemma bind_get_words {B : Type}
    (k : list (string * list sequence) -> M B) (h : heap) :
  bind get_words k h = k (all_word_sequences h) h.
Proof. reflexivity. Qed.

Lemma bind_get_hwords {B : Type}
    (k : list (string * (array * list Z)) -> M B) (h : heap) :
  bind get_hwords k h = k (all_word_Xlengths h) h.
Proof. reflexivity. Qed.

Lemma score_BIC_run (k : Z) (h : heap) :
  ok_of (fst (score_BIC k h)) = BIC_spec (self h) k /\
  same_objects h (snd (score_BIC k h)).
Proof.
  unfold score_BIC. rewrite bind_run.
  destruct (base_model_run k h) as [E S]. rewrite E.
  set (h1 := snd (base_model k h)) in *.
  assert (Es : self h1 = self h) by apply S.
  unfold BIC_spec. rewrite bind_run. simpl. rewrite Es.
  destruct (fit_model (self h) k) as [m |] eqn:Ef; simpl; auto.
  unfold model_score, lift, bind, math_log, ret, raise. simpl.
  rewrite (fit_model_n_components _ _ _ Ef).
  assert (Ff : n_features m = shape1 (X (self h))).
  { unfold fit_model in Ef. destruct (hmm_fit _ _ _ _ _); inversion Ef.
    reflexivity. }
  rewrite Ff.
  destruct (hmm_score m (X (self h)) (lengths (self h))); simpl; auto.
  destruct (Z.of_nat (List.length (sequences (self h))) <=? 0); simpl; auto.
Qed.

(** The search loop shared by the two strategies, for a scoring statement
    that computes [cand] and leaves the objects alone. *)
Lemma search_loop_run (better : float -> float -> bool)
    (score : Z -> M float) (cand : Z -> option float) (h0 : heap) :
  (forall k h, same_objects h0 h ->
     ok_of (fst (score k h)) = cand k /\ same_objects h0 (snd (score k h))) ->
  forall l acc h, same_objects h0 h ->
    let loop :=
      for_loop l
        (fun num '(cur, best) =>
           try_except
             (sc <- score num ;;
              if better sc cur then ret (sc, num) else ret (cur, best))
             (ret (cur, best))) acc in
    fst (loop h) = Ok (search better cand l acc) /\
    same_objects h0 (snd (loop h)).
Proof.
  intros Hscore. induction l as [| a l IH]; intros acc h Hh; simpl.
  - split; auto.
  - rewrite bind_run. destruct acc as [cur best].
    rewrite try_except_run, bind_run.
    destruct (Hscore a h Hh) as [Ec Hs].
    change (search better cand (a :: l) (cur, best))
      with (search better cand l (pick better cand (cur, best) a)).
    unfold pick. rewrite <- Ec.
    destruct (fst (score a h)) as [sc | e]; simpl.
    + destruct (better sc cur); simpl; apply IH; exact Hs.
    + apply IH; exact Hs.
Qed.

Lemma SelectorBIC_search_run (h : heap) :
  fst (SelectorBIC_search h) =
    Ok (search fltb (BIC_spec (self h)) (candidates (self h))
          (inf, n_constant (self h))) /\
  same_objects h (snd (SelectorBIC_search h)).
Proof.
  unfold SelectorBIC_search. rewrite bind_run. simpl.
  apply (search_loop_run fltb score_BIC (BIC_spec (self h)) h).
  - intros k h1 H1. destruct (score_BIC_run k h1) as [E S].
    split.
    + rewrite E. f_equal. apply H1.
    + now apply same_objects_trans with h1.
  - apply same_objects_refl.
Qed.

Lemma SelectorBIC_select_run (h : heap) :
  fst (SelectorBIC_select h) =
    Ok (fit_model (self h)
          (snd (search fltb (BIC_spec (self h)) (candidates (self h))
                  (inf, n_constant (self h))))) /\
  same_objects h (snd (SelectorBIC_select h)).
Proof.
  unfold SelectorBIC_select. rewrite bind_run.
  destruct (SelectorBIC_search_run h) as [E S]. rewrite E.
  set (r := search _ _ _ _). destruct r as [sc best] eqn:Er. simpl.
  destruct (base_model_run best (snd (SelectorBIC_search h))) as [E' S'].
  rewrite E'. split.
  - f_equal. f_equal. apply S.
  - now apply same_objects_trans with (snd (SelectorBIC_search h)).
Qed.

(** *** DIC *)

Lemma scores_loop_run (m : GaussianHMM) (others : list (array * list Z)) :
  forall acc h,
    for_loop others
      (fun word acc =>
         v <- model_score (Some m) (fst word) (snd word) ;;
         ret (acc ++ [v])) acc h =
    (match scores_all m others with
     | Some vs => Ok (acc ++ vs)
     | None => Raise LibraryError
     end, h).
Proof.
  induction others as [| word rest IH]; intros acc h; simpl.
  - unfold ret. now rewrite app_nil_r.
  - rewrite bind_run. unfold model_score at 1. unfold lift, bind, ret. simpl.
    destruct (hmm_score m (fst word) (snd word)) as [v |]; simpl; auto.
    rewrite IH. destruct (scores_all m rest); auto.
    now rewrite <- app_assoc.
Qed.

Lemma score_DIC_run (others : list (array * list Z)) (k : Z) (h : heap) :
  ok_of (fst (score_DIC others k h)) = DIC_spec (self h) others k /\
  same_objects h (snd (score_DIC others k h)).
Proof.
  unfold score_DIC. rewrite bind_run.
  destruct (base_model_run k h) as [E S]. rewrite E.
  set (h1 := snd (base_model k h)) in *.
  assert (Es : self h1 = self h) by apply S.
  unfold DIC_spec.
  destruct (fit_model (self h) k) as [m |] eqn:Ef.
  - rewrite bind_run, scores_loop_run. simpl.
    destruct (scores_all m others) as [anti |]; simpl; auto.
    unfold bind, get_self, model_score, lift, ret. simpl. rewrite Es.
    destruct (hmm_score m (X (self h)) (lengths (self h))); simpl; auto.
  - rewrite bind_run.
    assert (L : forall acc h',
      snd (for_loop others
             (fun word acc =>
                v <- model_score None (fst word) (snd word) ;;
                ret (acc ++ [v])) acc h') = h' /\
      (others = [] \/
       ok_of (fst (for_loop others
             (fun word acc =>
                v <- model_score None (fst word) (snd word) ;;
                ret (acc ++ [v])) acc h')) = None)).
    { destruct others as [| w rest]; intros acc h'; simpl; auto. }
    destruct (L [] h1) as [L1 L2].
    destruct (fst (for_loop others _ [] h1)) as [anti | e] eqn:El.
    + rewrite L1. simpl. auto.
    + rewrite L1. simpl. auto.
Qed.

Lemma SelectorDIC_other_words_loop (this : string)
    (hwords : list (string * (array * list Z))) (words : list string) :
  forall acc h,
    for_loop words
      (fun word other_words =>
         if negb (String.eqb word this)
         then v <- lift (dict_get String.eqb hwords word) ;;
              ret (other_words ++ [v])
         else ret other_words) acc h =
    (match other_words_of this words hwords with
     | Some vs => Ok (acc ++ vs)
     | None => Raise KeyError
     end, h).
Proof.
  induction words as [| word rest IH]; intros acc h; simpl.
  - unfold ret. now rewrite app_nil_r.
  - rewrite bind_run. destruct (negb (String.eqb word this)); simpl.
    + unfold lift, bind, ret. simpl.
      destruct (dict_get String.eqb hwords word) as [v | e] eqn:Eg; simpl.
      * rewrite IH. destruct (other_words_of this rest hwords); auto.
        now rewrite <- app_assoc.
      * f_equal. clear IH.
        induction hwords as [| [k' v'] d IHd]; simpl in Eg.
        -- now inversion Eg.
        -- destruct (String.eqb k' word); [discriminate | auto].
    + apply IH.
Qed.



End Refinement.

(* ===================================================================== *)
(** ** Frame and totality                                                 *)
(* ===================================================================== *)

Create HintDb frame.

Section Frame.
Context {EX : Externals} {SC : Scorer}.

Lemma preserves_ret {A : Type} (I : heap -> Prop) (a : A) :
  preserves I (ret a).
Proof. intros h Hh. exact Hh. Qed.

Lemma preserves_raise {A : Type} (I : heap -> Prop) (e : exn) :
  preserves I (raise e : M A).
Proof. intros h Hh. exact Hh. Qed.

Lemma preserves_lift {A : Type} (I : heap -> Prop) (r : result A) :
  preserves I (lift r).
Proof. intros h Hh. exact Hh. Qed.

Lemma preserves_call {A : Type} (I : heap -> Prop) (o : option A) :
  preserves I (call o).
Proof. destruct o; intros h Hh; exact Hh. Qed.

Lemma preserves_get_self (I : heap -> Prop) : preserves I get_self.
Proof. intros h Hh. exact Hh. Qed.

Lemma preserves_get_words (I : heap -> Prop) : preserves I get_words.
Proof. intros h Hh. exact Hh. Qed.

Lemma preserves_get_hwords (I : heap -> Prop) : preserves I get_hwords.
Proof. intros h Hh. exact Hh. Qed.

Lemma preserves_bind {A B : Type} (I : heap -> Prop) (m : M A)
    (k : A -> M B) :
  preserves I m -> (forall a, preserves I (k a)) -> preserves I (bind m k).
Proof.
  intros Hm Hk h Hh. rewrite bind_run. specialize (Hm h Hh).
  destruct (fst (m h)); simpl; auto. now apply Hk.
Qed.

Lemma preserves_try {A : Type} (I : heap -> Prop) (body handler : M A) :
  preserves I body -> preserves I handler ->
  preserves I (try_except body handler).
Proof.
  intros Hb Hh h Hi. rewrite try_except_run. specialize (Hb h Hi).
  destruct (fst (body h)); simpl; auto.
Qed.

Lemma preserves_for_loop {A S : Type} (I : heap -> Prop) (l : list A)
    (body : A -> S -> M S) :
  (forall a s, preserves I (body a s)) ->
  forall s, preserves I (for_loop l body s).
Proof.
  intros Hb. induction l as [| a l IH]; intros s; simpl.
  - apply preserves_ret.
  - apply preserves_bind; auto.
Qed.

Lemma preserves_if {A : Type} (I : heap -> Prop) (b : bool) (m1 m2 : M A) :
  preserves I m1 -> preserves I m2 -> preserves I (if b then m1 else m2).
Proof. now destruct b. Qed.

Lemma same_config_refl h : same_config h h.
Proof. unfold same_config. repeat split; reflexivity. Qed.

Lemma same_config_objects h0 h h' :
  same_config h0 h -> same_objects h h' -> same_config h0 h'.
Proof.
  unfold same_config. intros H (A & B & C). rewrite A, B, C. exact H.
Qed.

Lemma preserves_base_model h0 (k : Z) :
  preserves (same_config h0) (base_model k).
Proof.
  intros h Hh. apply same_config_objects with h; auto.
  apply base_model_run.
Qed.

Lemma preserves_objects_base_model h0 (k : Z) :
  preserves (same_objects h0) (base_model k).
Proof.
  intros h Hh. apply same_objects_trans with h; auto.
  apply base_model_run.
Qed.

Lemma preserves_set_X_lengths h0 (v : array * list Z) :
  preserves (same_config h0) (set_X_lengths v).
Proof. intros h Hh. exact Hh. Qed.

Lemma preserves_model_score (I : heap -> Prop) model x l :
  preserves I (model_score model x l).
Proof. apply preserves_lift. Qed.

Lemma preserves_math_log (I : heap -> Prop) n : preserves I (math_log n).
Proof. unfold math_log. destruct (n <=? 0); intros h Hh; exact Hh. Qed.

Hint Resolve preserves_ret preserves_raise preserves_lift preserves_call
  preserves_get_self preserves_get_words preserves_get_hwords
  preserves_try preserves_if preserves_base_model preserves_set_X_lengths
  preserves_objects_base_model preserves_model_score preserves_math_log
  : frame.

(** Opens a statement one construct at a time. *)
Ltac frame :=
  repeat first
    [ solve [ auto with frame ]
    | apply preserves_bind; [| intros ? ]
    | apply preserves_for_loop; intros ? ?
    | apply preserves_try
    | apply preserves_if
    | match goal with
      | |- preserves _ (match ?x with _ => _ end) => destruct x
      | |- preserves _ (let '(_, _) := ?x in _) => destruct x
      end
    | progress cbv beta zeta ].

Lemma preserves_SelectorConstant_select h0 :
  preserves (same_config h0) SelectorConstant_select.
Proof. unfold SelectorConstant_select. frame. Qed.

Lemma preserves_score_BIC h0 k : preserves (same_config h0) (score_BIC k).
Proof. unfold score_BIC. frame. Qed.

Lemma preserves_SelectorBIC_select h0 :
  preserves (same_config h0) SelectorBIC_select.
Proof.
  unfold SelectorBIC_select, SelectorBIC_search.
  pose proof (preserves_score_BIC h0). frame.
Qed.

Lemma preserves_score_DIC h0 others k :
  preserves (same_config h0) (score_DIC others k).
Proof. unfold score_DIC. frame. Qed.

Lemma preserves_SelectorDIC_select h0 :
  preserves (same_config h0) SelectorDIC_select.
Proof.
  unfold SelectorDIC_select, SelectorDIC_search, SelectorDIC_other_words.
  pose proof (preserves_score_DIC h0). frame.
Qed.

(** The strategies without folds leave the whole selector alone. *)
Lemma preserves_objects_SelectorConstant_select h0 :
  preserves (same_objects h0) SelectorConstant_select.
Proof. unfold SelectorConstant_select. frame. Qed.

Lemma preserves_objects_SelectorBIC_select h0 :
  preserves (same_objects h0) SelectorBIC_select.
Proof. unfold SelectorBIC_select, SelectorBIC_search, score_BIC. frame. Qed.

Lemma preserves_objects_SelectorDIC_select h0 :
  preserves (same_objects h0) SelectorDIC_select.
Proof.
  unfold SelectorDIC_select, SelectorDIC_search, SelectorDIC_other_words,
    score_DIC.
  frame.
Qed.

Lemma preserves_cv_fold h0 k fold : preserves (same_config h0) (cv_fold k fold).
Proof. unfold cv_fold. frame. Qed.

Lemma preserves_cv_score h0 kf k : preserves (same_config h0) (cv_score kf k).
Proof. unfold cv_score. pose proof (preserves_cv_fold h0). frame. Qed.

Lemma preserves_SelectorCV_select h0 :
  preserves (same_config h0) SelectorCV_select.
Proof.
  unfold SelectorCV_select, SelectorCV_search.
  pose proof (preserves_cv_score h0). frame.
Qed.

(** *** Statements that cannot raise *)










End Frame.

(* ===================================================================== *)
(** ** KFold                                                              *)
(* ===================================================================== *)

Section Folds.

Lemma test_folds_concat (sizes : list nat) (current : nat) :
  List.concat (test_folds sizes current) = seq current (list_sum sizes).
Proof.
  revert current. induction sizes as [| sz rest IH]; intros current; simpl.
  - reflexivity.
  - rewrite IH. symmetry. apply seq_app.
Qed.

Lemma mem_nat_In (i : nat) (l : list nat) : mem_nat i l = true <-> In i l.
Proof.
  unfold mem_nat. rewrite existsb_exists. split.
  - intros (x & Hx & E). apply Nat.eqb_eq in E. now subst.
  - intros H. exists i. split; auto. apply Nat.eqb_refl.
Qed.

(** The train indices of a fold are the indices outside its test run. *)
Lemma train_index_spec (n i : nat) (test_index : list nat) :
  In i (filter (fun i => negb (mem_nat i test_index)) (seq 0 n)) <->
  (i < n)%nat /\ ~ In i test_index.
Proof.
  rewrite filter_In, in_seq, negb_true_iff, <- mem_nat_In.
  destruct (mem_nat i test_index); split; intros [H1 H2]; split;
    try lia; congruence.
Qed.

(** The three fold sizes of the default splitter add up to [n]. *)
Lemma fold_sizes_3 (n : nat) :
  exists a b c : nat,
    fold_sizes 3 n = [a; b; c] /\ (a + b + c = n)%nat /\
    (3 <= n -> 0 < a /\ 0 < b /\ 0 < c)%nat.
Proof.
  pose proof (Nat.div_mod_eq n 3) as Hdm.
  pose proof (Nat.mod_upper_bound n 3 ltac:(lia)) as Hr.
  exists (n / 3 + (if 0 <? n mod 3 then 1 else 0))%nat,
         (n / 3 + (if 1 <? n mod 3 then 1 else 0))%nat,
         (n / 3 + (if 2 <? n mod 3 then 1 else 0))%nat.
  split; [reflexivity |].
  generalize dependent (n / 3)%nat. generalize dependent (n mod 3)%nat.
  intros r Hr q Hdm.
  destruct r as [| [| [| r]]]; cbn [Nat.ltb Nat.leb]; lia.
Qed.

Lemma KFold_default_split (n : nat) :
  (2 < n)%nat ->
  exists f1 f2 f3 : list nat * list nat,
    KFold_split KFold_default n = Ok [f1; f2; f3] /\
    snd f1 ++ snd f2 ++ snd f3 = seq 0 n /\
    (forall f, In f [f1; f2; f3] ->
       snd f <> [] /\
       forall i, In i (fst f) <-> (i < n)%nat /\ ~ In i (snd f)).
Proof.
  intros Hn. unfold KFold_split, KFold_default. simpl n_splits.
  destruct (Nat.ltb_spec n 3) as [Hlt | _]; [lia |].
  destruct (fold_sizes_3 n) as (a & b & c & E & Hsum & Hpos).
  specialize (Hpos ltac:(lia)).
  pose proof (test_folds_concat (fold_sizes 3 n) 0) as Hc.
  rewrite E in *. simpl in Hc. simpl test_folds. simpl map.
  do 3 eexists. split; [reflexivity |]. split.
  - simpl. rewrite app_nil_r in Hc. rewrite Hc. f_equal. lia.
  - intros f [<- | [<- | [<- | []]]]; simpl; split;
      try (intros i; exact (train_index_spec n i _)).
    + destruct a; [lia | simpl; discriminate].
    + destruct b; [lia | simpl; discriminate].
    + destruct c; [lia | simpl; discriminate].
Qed.

End Folds.

Section CrossValidation.
Context {EX : Externals} {SC : Scorer}.

(** [cv_score] over three folds is three runs of the fold body, the
    value of the last one returned. *)
Lemma cv_score_three_folds (kf : KFold) (k : Z) (h : heap)
    (f1 f2 f3 : list nat * list nat) :
  (2 < List.length (sequences (self h)))%nat ->
  KFold_split kf (List.length (sequences (self h))) = Ok [f1; f2; f3] ->
  cv_score kf k h = (cv_fold k f1 ;; cv_fold k f2 ;; cv_fold k f3) h.
Proof.
  intros Hn Hs. unfold cv_score.
  remember (cv_fold k) as body eqn:Eb.
  unfold bind at 1. unfold get_self. cbv beta iota.
  rewrite (proj2 (Nat.ltb_lt _ _) Hn), Hs.
  unfold bind, lift, ret, raise. cbn [for_loop].
  unfold bind, ret.
  destruct (body f1 h) as [[v1 | e1] h1]; auto.
  destruct (body f2 h1) as [[v2 | e2] h2]; auto.
  destruct (body f3 h2) as [[v3 | e3] h3]; auto.
Qed.

End CrossValidation.

(* ===================================================================== *)
(** ** Search loops of the DIC and cross-validation strategies            *)
(* ===================================================================== *)

Section Loops.
Context {EX : Externals} {SC : Scorer}.

Lemma in_range (a b k : Z) : In k (range a (b + 1)) -> a <= k <= b.
Proof.
  unfold range. rewrite in_map_iff. intros (i & <- & Hi).
  apply in_seq in Hi. lia.
Qed.

Lemma SelectorDIC_other_words_run (h : heap) :
  SelectorDIC_other_words h =
  (match other_words_of (this_word (self h))
           (dict_keys (all_word_sequences h)) (all_word_Xlengths h) with
   | Some vs => Ok vs
   | None => Raise KeyError
   end, h).
Proof.
  unfold SelectorDIC_other_words.
  rewrite bind_get_self, bind_get_words, bind_get_hwords.
  apply SelectorDIC_other_words_loop.
Qed.

Lemma SelectorDIC_search_run (h : heap) (others : list (array * list Z)) :
  other_words_of (this_word (self h)) (dict_keys (all_word_sequences h))
    (all_word_Xlengths h) = Some others ->
  fst (SelectorDIC_search h) =
    Ok (search fgtb (DIC_spec (self h) others) (candidates (self h))
          (neg_inf, n_constant (self h))) /\
  same_objects h (snd (SelectorDIC_search h)).
Proof.
  intros Ho. unfold SelectorDIC_search.
  rewrite bind_get_self, bind_run, SelectorDIC_other_words_run, Ho.
  cbv beta iota delta [fst snd].
  apply (search_loop_run fgtb (score_DIC others) (DIC_spec (self h) others) h).
  - intros k h1 H1. destruct (score_DIC_run others k h1) as [E S].
    split.
    + rewrite E. f_equal. apply H1.
    + now apply same_objects_trans with h1.
  - apply same_objects_refl.
Qed.

Lemma SelectorDIC_select_run (h : heap) (others : list (array * list Z)) :
  other_words_of (this_word (self h)) (dict_keys (all_word_sequences h))
    (all_word_Xlengths h) = Some others ->
  fst (SelectorDIC_select h) =
    Ok (fit_model (self h)
          (snd (search fgtb (DIC_spec (self h) others) (candidates (self h))
                  (neg_inf, n_constant (self h))))) /\
  same_objects h (snd (SelectorDIC_select h)).
Proof.
  intros Ho. unfold SelectorDIC_select. rewrite bind_run.
  destruct (SelectorDIC_search_run h others Ho) as [E S]. rewrite E.
  set (r := search _ _ _ _). destruct r as [sc best] eqn:Er. simpl.
  destruct (base_model_run best (snd (SelectorDIC_search h))) as [E' S'].
  rewrite E'. split.
  - f_equal. f_equal. apply S.
  - now apply same_objects_trans with (snd (SelectorDIC_search h)).
Qed.

(** A loop whose body cannot raise and keeps a property of the locals. *)
Lemma for_loop_invariant {A S : Type} (P : S -> Prop) (l : list A)
    (body : A -> S -> M S) :
  (forall a s h, In a l -> P s ->
     exists s', fst (body a s h) = Ok s' /\ P s') ->
  forall s h, P s -> exists s', fst (for_loop l body s h) = Ok s' /\ P s'.
Proof.
  intros Hb. induction l as [| a l IH]; intros s h Hs; simpl.
  - now exists s.
  - rewrite bind_run.
    destruct (Hb a s h (or_introl eq_refl) Hs) as (s' & -> & Hs').
    apply IH; auto. intros b t h' Hin. apply Hb. now right.
Qed.


(** The cross-validation search ends on the fallback or on a candidate. *)
Lemma SelectorCV_search_best (h : heap) :
  exists acc,
    fst (SelectorCV_search h) = Ok acc /\
    (snd acc = n_constant (self h) \/ In (snd acc) (candidates (self h))).
Proof.
  unfold SelectorCV_search. rewrite bind_get_self. cbv zeta.
  apply for_loop_invariant
    with (P := fun acc : list float * float * Z =>
                 snd acc = n_constant (self h) \/
                 In (snd acc) (candidates (self h))).
  - intros num [[lls mavg] best] h1 Hin Hacc.
    rewrite try_except_run, bind_run.
    destruct (fst (cv_score KFold_default num h1)) as [v | e].
    + destruct (fltb mavg (np_mean (lls ++ [v]))); simpl; eauto.
    + simpl. eauto.
  - now left.
Qed.

End Loops.

(* ===================================================================== *)
(** ** Dictionaries and the recognizer                                    *)
(* ===================================================================== *)

Section Recognizer.
Context {EX : Externals} {SC : Scorer}.

Lemma dict_get_some {K V : Type} (eqb : K -> K -> bool)
    (Heqb : forall a b, eqb a b = true <-> a = b)
    (d : list (K * V)) (k : K) :
  In k (dict_keys d) -> exists v, dict_get eqb d k = Ok v /\ In (k, v) d.
Proof.
  induction d as [| [k' v'] d IH]; simpl; intros Hin; [easy |].
  destruct (eqb k' k) eqn:E.
  - apply Heqb in E. subst. eauto.
  - destruct Hin as [-> | Hin].
    + assert (eqb k k = true) by now apply Heqb. congruence.
    + destruct (IH Hin) as (v & Hv & Hi). eauto.
Qed.

Lemma dict_get_nodup {K V : Type} (eqb : K -> K -> bool)
    (Heqb : forall a b, eqb a b = true <-> a = b)
    (d : list (K * V)) (k : K) (v : V) :
  NoDup (dict_keys d) -> In (k, v) d -> dict_get eqb d k = Ok v.
Proof.
  induction d as [| [k' v'] d IH]; simpl; intros Hnd Hin; [easy |].
  inversion Hnd as [| ? ? Hnotin Hnd']; subst.
  destruct Hin as [E | Hin].
  - inversion E; subst. assert (eqb k k = true) as -> by now apply Heqb.
    reflexivity.
  - destruct (eqb k' k) eqn:E.
    + apply Heqb in E. subst. exfalso. apply Hnotin.
      unfold dict_keys. change k with (fst (k, v)). now apply in_map.
    + auto.
Qed.

Lemma String_eqb_iff (a b : string) : String.eqb a b = true <-> a = b.
Proof. apply String.eqb_eq. Qed.

(** When no model scores the item, its score table is empty. *)
Lemma score_table_empty (models : list (string * option GaussianHMM))
    (x : array) (l : list Z) :
  (forall w model, In (w, model) models -> ok_of (py_score model x l) = None) ->
  score_table models x l = [].
Proof.
  intros Hfail. unfold score_table.
  assert (G : forall ws, (forall w, In w ws -> In w (dict_keys models)) ->
    fold_left
      (fun probs_dict w =>
         match dict_get String.eqb models w with
         | Ok model =>
             match py_score model x l with
             | Ok v => dict_set String.eqb probs_dict w v
             | Raise _ => probs_dict
             end
         | Raise _ => probs_dict
         end) ws [] = []).
  { induction ws as [| w ws IH]; intros Hws; simpl; auto.
    destruct (dict_get_some String.eqb String_eqb_iff models w
                (Hws w (or_introl eq_refl))) as (model & -> & Hin).
    specialize (Hfail w model Hin).
    destruct (py_score model x l); [discriminate |].
    apply IH. intros w' Hw'. apply Hws. now right. }
  apply G. auto.
Qed.

Lemma py_max_raises (d : list (string * float)) (e : exn) :
  py_max d = Raise e -> e = ValueError /\ d = [].
Proof. destruct d; simpl; intros H; inversion H; auto. Qed.

Lemma recognize_items_raises
    (models : list (string * option GaussianHMM))
    (test_set : list (Z * (array * list Z)))
    (id : Z) (x : array) (l : list Z) :
  NoDup (dict_keys test_set) ->
  In (id, (x, l)) test_set ->
  score_table models x l = [] ->
  forall test_words probabilities guesses,
    (forall k, In k test_words -> In k (dict_keys test_set)) ->
    In id test_words ->
    recognize_items models test_set test_words probabilities guesses =
    Raise ValueError.
Proof.
  intros Hnd Hin Hempty.
  induction test_words as [| k rest IH]; intros probs guesses Hks Hid.
  - destruct Hid.
  - simpl.
    destruct (dict_get_some Z.eqb Z.eqb_eq test_set k
                (Hks k (or_introl eq_refl))) as ([x' l'] & Eg & Hk).
    rewrite Eg.
    destruct (py_max (score_table models x' l')) as [guess | e] eqn:Em.
    + destruct Hid as [-> | Hid].
      * rewrite (dict_get_nodup Z.eqb Z.eqb_eq test_set id (x, l) Hnd Hin)
          in Eg.
        inversion Eg; subst. rewrite Hempty in Em. discriminate.
      * apply IH; auto. intros k' Hk'. apply Hks. now right.
    + apply py_max_raises in Em. now destruct Em as [-> _].
Qed.

End Recognizer.

(* ===================================================================== *)
(** ** The instance satisfies the comparison laws                         *)
(* ===================================================================== *)

Lemma Demo_float_order : @FloatOrder Demo.externals.
Proof.
  split.
  - intros [| | x |]; simpl; auto. apply Z.ltb_irrefl.
  - intros [| | x |] [| | y |] [| | z |]; simpl; try easy.
    rewrite !Z.ltb_lt. lia.
Qed.

(* ===================================================================== *)
(** ** Recognition                                                        *)
(* ===================================================================== *)

Section RecognizerClaims.
Context {EX : Externals} {SC : Scorer}.

(** C1 (the code departs from it).  The design document wants a test item
    that no word model can score handled by a defined policy, never by an
    uncaught failure.  [recognize] absorbs each scoring failure, but then
    takes [max] of the item's empty score table: whenever the test set
    holds such an item the whole call ends in a [ValueError], and the
    results of all other items are lost with it. *)
Theorem recognize_unscorable_item_raises
    (models : list (string * option GaussianHMM))
    (all_word_Xlengths : list (Z * (array * list Z)))
    (test_word : Z) (x : array) (l : list Z) :
  NoDup (dict_keys all_word_Xlengths) ->
  In (test_word, (x, l)) all_word_Xlengths ->
  (forall w model, In (w, model) models ->
     ok_of (py_score model x l) = None) ->
  recognize models all_word_Xlengths = Raise ValueError.
Proof.
  intros Hnd Hin Hfail. unfold recognize.
  apply recognize_items_raises with test_word x l; auto.
  - now apply score_table_empty.
  - unfold dict_keys. change test_word with (fst (test_word, (x, l))).
    now apply in_map.
Qed.

End RecognizerClaims.

Section RecognizerRuns.
#[local] Existing Instance Demo.externals.
#[local] Existing Instance Demo.scorer.

Lemma recognize_unscorable_item_raises_witness :
  recognize Scenario.models Scenario.test_Xlengths = Raise ValueError.
Proof.
  apply (recognize_unscorable_item_raises Scenario.models
           Scenario.test_Xlengths 1 [] [0]).
  - repeat constructor; simpl; intuition discriminate.
  - simpl. auto.
  - intros w model [E | [E | []]]; inversion E; reflexivity.
Defined.

End RecognizerRuns.

(* ===================================================================== *)
(** ** Cross-validation                                                   *)
(* ===================================================================== *)

Section CrossValidationRuns.
#[local] Existing Instance Demo.externals.
#[local] Existing Instance Demo.scorer.

(** C2 (the code departs from it).  Each fold's model is fit on the
    fold's training sequences and scored on its test sequences, but the
    score of a fold overwrites the score of the fold before it: only the
    last fold's log-likelihood reaches the running list, one entry per
    candidate.  For the word "A" (three sequences, three folds) and the
    single candidate 2, the folds score -3, -2 and -12 and the list ends
    as [[-12]]. *)
Theorem cv_keeps_only_last_fold_score :
  let h := Scenario.selector_A_one_candidate in
  exists f1 f2 f3 h1 h2 h3,
    KFold_split KFold_default (List.length (sequences (self h))) =
      Ok [f1; f2; f3] /\
    cv_fold 2 f1 h = (Ok (Demo.Fin (-3)), h1) /\
    cv_fold 2 f2 h1 = (Ok (Demo.Fin (-2)), h2) /\
    cv_fold 2 f3 h2 = (Ok (Demo.Fin (-12)), h3) /\
    fst (SelectorCV_search h) = Ok ([Demo.Fin (-12)], Demo.Fin (-12), 2).
Proof.
  cbv zeta. do 6 eexists.
  split; [vm_compute; reflexivity |].
  split; [vm_compute; reflexivity |].
  split; [vm_compute; reflexivity |].
  split; vm_compute; reflexivity.
Qed.

(** C3 (the code departs from it).  The fold overwrite of [self.X] and
    [self.lengths] is never undone.  For the word "A" with the default
    configuration, [select()] leaves the training data of the last fold it
    tried in the selector, and the model it returns is fit on those four
    frames, not on the six frames the selector was built with. *)
Theorem cv_overwrite_is_not_undone :
  let h := Scenario.selector_A in
  let h' := snd (SelectorCV_select h) in
  ModelSelector_init Scenario.training_sequences Scenario.training_Xlengths
    "A" 3 2 10 14 false = Ok h /\
  (X (self h), lengths (self h)) = ([1; 2; 3; 4; 5; 6], [2; 1; 3]) /\
  (X (self h'), lengths (self h')) = ([3; 4; 5; 6], [1; 3]) /\
  fst (SelectorCV_select h) =
    Ok (Some {| n_components := 2; n_features := 1;
                params := [3; 4; 5; 6] |}).
Proof. cbv zeta. repeat split; vm_compute; reflexivity. Qed.

End CrossValidationRuns.

Section CrossValidationClaims.
Context {EX : Externals} {SC : Scorer}.


End CrossValidationClaims.

Section CrossValidationWitness.
#[local] Existing Instance Demo.externals.
#[local] Existing Instance Demo.scorer.


End CrossValidationWitness.

(* ===================================================================== *)
(** ** Frame                                                              *)
(* ===================================================================== *)

Section FrameClaims.
Context {EX : Externals} {SC : Scorer}.

(** C10.  Whatever the strategy, [select()] leaves the two dicts given to
    the constructor as they were, entry by entry, and with them every
    attribute of the selector except [X] and [lengths]; only
    cross-validation rebinds those two, the other strategies leave the
    whole selector as it was. *)
Theorem select_leaves_shared_mappings_unchanged (h : heap) :
  (forall select,
     In select [SelectorConstant_select; SelectorBIC_select;
                SelectorDIC_select; SelectorCV_select] ->
     let h' := snd (select h) in
     all_word_sequences h' = all_word_sequences h /\
     all_word_Xlengths h' = all_word_Xlengths h /\
     (forall word,
        dict_get String.eqb (all_word_Xlengths h') word =
        dict_get String.eqb (all_word_Xlengths h) word) /\
     same_config h h') /\
  (forall select,
     In select [SelectorConstant_select; SelectorBIC_select;
                SelectorDIC_select] ->
     self (snd (select h)) = self h).
Proof.
  split.
  - intros select Hin.
    assert (Hc : same_config h (snd (select h))).
    { destruct Hin as [<- | [<- | [<- | [<- | []]]]].
      - apply preserves_SelectorConstant_select, same_config_refl.
      - apply preserves_SelectorBIC_select, same_config_refl.
      - apply preserves_SelectorDIC_select, same_config_refl.
      - apply preserves_SelectorCV_select, same_config_refl. }
    cbv zeta. destruct Hc as (Hw & Hx & Hrest).
    repeat split; auto; try apply Hrest. intros word. now rewrite Hx.
  - intros select [<- | [<- | [<- | []]]].
    + apply preserves_objects_SelectorConstant_select, same_objects_refl.
    + apply preserves_objects_SelectorBIC_select, same_objects_refl.
    + apply preserves_objects_SelectorDIC_select, same_objects_refl.
Qed.

End FrameClaims.

(* ===================================================================== *)
(** ** The BIC and DIC criteria                                           *)
(* ===================================================================== *)

Section CriteriaClaims.
Context {EX : Externals} {SC : Scorer}.

(** A candidate without a score might as well not be in the list. *)
Lemma search_skip (better : float -> float -> bool)
    (cand : Z -> option float) (k : Z) (l : list Z) :
  cand k = None ->
  forall init,
    search better cand l init =
    search better cand (filter (fun j => negb (j =? k)) l) init.
Proof.
  intros Hk. induction l as [| a l IH]; intros init; [reflexivity |].
  change (search better cand (a :: l) init)
    with (search better cand l (pick better cand init a)).
  simpl filter. destruct (Z.eqb_spec a k) as [-> | Hne]; simpl negb; cbv iota.
  - unfold pick. rewrite Hk. apply IH.
  - change (search better cand (a :: filter (fun j => negb (j =? k)) l) init)
      with (search better cand (filter (fun j => negb (j =? k)) l)
              (pick better cand init a)).
    apply IH.
Qed.

Lemma scores_all_fails (m : GaussianHMM) (others : list (array * list Z))
    (word : array * list Z) :
  In word others -> hmm_score m (fst word) (snd word) = None ->
  scores_all m others = None.
Proof.
  induction others as [| w rest IH]; simpl; intros Hin Hw; [easy |].
  destruct Hin as [-> | Hin].
  - now rewrite Hw.
  - rewrite (IH Hin Hw). now destruct (hmm_score m (fst w) (snd w)).
Qed.

Lemma ok_of_Some {A : Type} (r : result A) (a : A) :
  ok_of r = Some a -> r = Ok a.
Proof. destruct r; simpl; intros E; inversion E; reflexivity. Qed.

Lemma ok_of_None {A : Type} (r : result A) : ok_of r = None -> raises r.
Proof. destruct r; simpl; [discriminate | auto]. Qed.

Context {FO : FloatOrder}.

Lemma fltb_asym (a b : float) : fltb a b = true -> fltb b a = false.
Proof.
  intros H. destruct (fltb b a) eqn:E; auto.
  rewrite <- (fltb_irrefl a). symmetry. now apply fltb_trans with b.
Qed.

Lemma fgtb_irrefl (a : float) : fgtb a a = false.
Proof. apply fltb_irrefl. Qed.

Lemma fgtb_trans (a b c : float) :
  fgtb a b = true -> fgtb b c = true -> fgtb a c = true.
Proof. unfold fgtb. intros H1 H2. now apply fltb_trans with b. Qed.

(** C4.  For a candidate [k] that fits and scores, [score_BIC] is
    [-2 L + p ln N] with [p = k^2 + 2 k F], where [L] is the model's
    log-likelihood of the word's flattened data, [F] the feature count and
    [N] the number of training sequences; and as soon as some candidate has
    a BIC below infinity, the search ends on a candidate that fits and
    scores and whose BIC no other candidate undercuts, and that candidate is
    the one [select()] fits and returns. *)
Theorem SelectorBIC_minimises_BIC (h : heap) :
  let s := self h in
  let N := Z.of_nat (List.length (sequences s)) in
  (forall k m L,
     fit_model s k = Some m ->
     hmm_score m (X s) (lengths s) = Some L ->
     sequences s <> [] ->
     n_components m = k /\ n_features m = shape1 (X s) /\
     fst (score_BIC k h) =
       Ok (fadd (fmul (of_int (-2)) L)
                (fmul (of_int (k ^ 2 + 2 * k * n_features m)) (flog N)))) /\
  (forall k0 sc0,
     In k0 (candidates s) -> BIC_spec s k0 = Some sc0 ->
     fltb sc0 inf = true ->
     exists best sb,
       fst (SelectorBIC_search h) = Ok (sb, best) /\
       In best (candidates s) /\
       BIC_spec s best = Some sb /\
       (forall k sc, In k (candidates s) -> BIC_spec s k = Some sc ->
                     fltb sc sb = false) /\
       fst (SelectorBIC_select h) = Ok (fit_model s best)).
Proof.
  cbv zeta. split.
  - intros k m L Hf Hs Hne.
    assert (Hk : n_components m = k) by now apply fit_model_n_components in Hf.
    assert (HF : n_features m = shape1 (X (self h))).
    { unfold fit_model in Hf. destruct (hmm_fit _ _ _ _ _); inversion Hf.
      reflexivity. }
    repeat split; auto.
    apply ok_of_Some. destruct (score_BIC_run k h) as [-> _].
    unfold BIC_spec. rewrite Hf, Hs, HF.
    destruct (Z.leb_spec (Z.of_nat (List.length (sequences (self h)))) 0)
      as [Hle | _]; auto.
    destruct (sequences (self h)); [congruence | simpl in Hle; lia].
  - intros k0 sc0 Hin Hc Hlt.
    destruct (SelectorBIC_search_run h) as [Es _].
    destruct (SelectorBIC_select_run h) as [El _].
    set (r := search fltb (BIC_spec (self h)) (candidates (self h))
                (inf, n_constant (self h))) in *.
    destruct (search_selects fltb (BIC_spec (self h)) fltb_irrefl fltb_trans
                (candidates (self h)) (inf, n_constant (self h)) k0 sc0
                Hin Hc Hlt) as [Hb Hsb].
    destruct (search_optimal fltb (BIC_spec (self h)) fltb_irrefl fltb_trans
                (candidates (self h)) (inf, n_constant (self h)))
      as [Hopt _].
    fold r in Hb, Hsb, Hopt.
    exists (snd r), (fst r). rewrite Es, El.
    repeat split; auto. now destruct r.
Qed.

(** C8.  In both searches the first candidate, in ascending order, that
    reaches the best score is the one selected: when the candidates before
    [j] score strictly worse than [j] and every later one scores the same
    or worse, the search ends on [j] and [select()] returns the model fit
    at [j]; a later candidate with an equal score does not replace it. *)
Theorem first_candidate_with_best_score_wins (h : heap)
    (others : list (array * list Z)) (l1 l2 : list Z) (j : Z) :
  let s := self h in
  candidates s = l1 ++ j :: l2 ->
  (forall sc,
     BIC_spec s j = Some sc -> fltb sc inf = true ->
     (forall k t, In k l1 -> BIC_spec s k = Some t -> fltb sc t = true) ->
     (forall k t, In k l2 -> BIC_spec s k = Some t ->
                  t = sc \/ fltb sc t = true) ->
     fst (SelectorBIC_search h) = Ok (sc, j) /\
     fst (SelectorBIC_select h) = Ok (fit_model s j)) /\
  (forall sc,
     other_words_of (this_word s) (dict_keys (all_word_sequences h))
       (all_word_Xlengths h) = Some others ->
     DIC_spec s others j = Some sc -> fltb neg_inf sc = true ->
     (forall k t, In k l1 -> DIC_spec s others k = Some t ->
                  fltb t sc = true) ->
     (forall k t, In k l2 -> DIC_spec s others k = Some t ->
                  t = sc \/ fltb t sc = true) ->
     fst (SelectorDIC_search h) = Ok (sc, j) /\
     fst (SelectorDIC_select h) = Ok (fit_model s j)).
Proof.
  cbv zeta. intros Hl. split.
  - intros sc Hj Hinf Hbefore Hafter.
    destruct (SelectorBIC_search_run h) as [Es _].
    destruct (SelectorBIC_select_run h) as [El _].
    rewrite Es, El, Hl.
    rewrite (search_first_best fltb (BIC_spec (self h)) l1 j l2
               (inf, n_constant (self h)) sc); auto.
    intros k t Hk Ht. destruct (Hafter k t Hk Ht) as [-> | Hlt].
    + apply fltb_irrefl.
    + now apply fltb_asym.
  - intros sc Ho Hj Hinf Hbefore Hafter.
    destruct (SelectorDIC_search_run h others Ho) as [Es _].
    destruct (SelectorDIC_select_run h others Ho) as [El _].
    rewrite Es, El, Hl.
    rewrite (search_first_best fgtb (DIC_spec (self h) others) l1 j l2
               (neg_inf, n_constant (self h)) sc); auto.
    intros k t Hk Ht. unfold fgtb.
    destruct (Hafter k t Hk Ht) as [-> | Hlt].
    + apply fltb_irrefl.
    + now apply fltb_asym.
Qed.

End CriteriaClaims.

Section CriteriaWitnesses.
#[local] Existing Instance Demo.externals.
#[local] Existing Instance Demo.scorer.

Lemma SelectorBIC_minimises_BIC_witness :
  fst (score_BIC 2 Scenario.selector_A) = Ok (Demo.Fin 38) /\
  exists best sb,
    fst (SelectorBIC_search Scenario.selector_A) = Ok (sb, best) /\
    In best (candidates (self Scenario.selector_A)) /\
    BIC_spec (self Scenario.selector_A) best = Some sb /\
    (forall k sc, In k (candidates (self Scenario.selector_A)) ->
                  BIC_spec (self Scenario.selector_A) k = Some sc ->
                  Demo.ltb sc sb = false) /\
    fst (SelectorBIC_select Scenario.selector_A) =
      Ok (fit_model (self Scenario.selector_A) best).
Proof.
  destruct (SelectorBIC_minimises_BIC (FO := Demo_float_order)
              Scenario.selector_A) as [H1 H2].
  split.
  - edestruct (H1 2) as (_ & _ & E).
    + vm_compute. reflexivity.
    + vm_compute. reflexivity.
    + discriminate.
    + exact E.
  - apply (H2 2 (Demo.Fin 38)).
    + vm_compute. auto.
    + reflexivity.
    + reflexivity.
Defined.

Lemma first_candidate_with_best_score_wins_witness :
  (fst (SelectorBIC_search Scenario.selector_D) = Ok (Demo.Fin 8, 2) /\
   fst (SelectorBIC_select Scenario.selector_D) =
     Ok (fit_model (self Scenario.selector_D) 2)) /\
  (fst (SelectorDIC_search Scenario.selector_D) = Ok (Demo.Fin 10, 2) /\
   fst (SelectorDIC_select Scenario.selector_D) =
     Ok (fit_model (self Scenario.selector_D) 2)).
Proof.
  destruct (first_candidate_with_best_score_wins (FO := Demo_float_order)
              Scenario.selector_D
              [([1; 2; 3; 4; 5; 6], [2; 1; 3]); ([10; 11], [2])]
              [] [3; 4; 5; 6; 7; 8; 9; 10] 2) as [HB HD].
  - reflexivity.
  - split.
    + apply HB.
      * reflexivity.
      * reflexivity.
      * intros k t [].
      * intros k t Hin.
        simpl in Hin.
        repeat (destruct Hin as [<- | Hin]; [vm_compute; intros E;
          inversion E; auto |]).
        destruct Hin.
    + apply HD.
      * reflexivity.
      * reflexivity.
      * reflexivity.
      * intros k t [].
      * intros k t Hin.
        simpl in Hin.
        repeat (destruct Hin as [<- | Hin]; [vm_compute; intros E;
          inversion E; auto |]).
        destruct Hin.
Defined.

End CriteriaWitnesses.

(* ===================================================================== *)
(** ** Failures                                                           *)
(* ===================================================================== *)

Section FailureClaims.
Context {EX : Externals} {SC : Scorer}.




(** C6, as the code has it.  In SelectorDIC a candidate [k] whose fit
    succeeded is scored only when the model scores every other word's data
    and the word's own data, as the own log-likelihood minus the mean over
    all other words.  A failure on any one other word makes [score_DIC]
    raise, and the search goes on as if [k] were not a candidate, whether
    or not the remaining words could be scored. *)
Theorem DIC_candidate_needs_every_score (h : heap)
    (others : list (array * list Z)) (k : Z) (m : GaussianHMM) :
  let s := self h in
  other_words_of (this_word s) (dict_keys (all_word_sequences h))
    (all_word_Xlengths h) = Some others ->
  fit_model s k = Some m ->
  (forall word,
     In word others -> hmm_score m (fst word) (snd word) = None ->
     raises (fst (score_DIC others k h)) /\
     fst (SelectorDIC_search h) =
       Ok (search fgtb (DIC_spec s others)
             (filter (fun j => negb (j =? k)) (candidates s))
             (neg_inf, n_constant s))) /\
  (forall anti own,
     scores_all m others = Some anti ->
     hmm_score m (X s) (lengths s) = Some own ->
     fst (score_DIC others k h) = Ok (fsub own (np_mean anti))).
Proof.
  cbv zeta. intros Ho Hf. split.
  - intros word Hin Hw.
    assert (Hk : DIC_spec (self h) others k = None).
    { unfold DIC_spec. now rewrite Hf, (scores_all_fails m others word). }
    split.
    + apply ok_of_None. destruct (score_DIC_run others k h) as [-> _].
      exact Hk.
    + destruct (SelectorDIC_search_run h others Ho) as [-> _].
      f_equal. now apply search_skip.
  - intros anti own Ha Hown. apply ok_of_Some.
    destruct (score_DIC_run others k h) as [-> _].
    unfold DIC_spec. now rewrite Hf, Ha, Hown.
Qed.

Lemma SelectorDIC_select_keyerror (h : heap) :
  other_words_of (this_word (self h)) (dict_keys (all_word_sequences h))
    (all_word_Xlengths h) = None ->
  fst (SelectorDIC_select h) = Raise KeyError.
Proof.
  intros Ho. unfold SelectorDIC_select, SelectorDIC_search.
  rewrite bind_run, bind_get_self, bind_run, SelectorDIC_other_words_run, Ho.
  reflexivity.
Qed.

(** C7, as the code has it.  Whatever the strategy, a model returned by
    [select()] has the fallback state count [n_constant] or a state count
    within [[min_n_components, max_n_components]]; it lies within the
    interval whenever [n_constant] does.  SelectorConstant always returns
    the fallback count. *)
Theorem selected_states_fallback_or_in_interval (h : heap)
    (m : GaussianHMM) :
  let s := self h in
  fst (SelectorConstant_select h) = Ok (Some m) \/
  fst (SelectorBIC_select h) = Ok (Some m) \/
  fst (SelectorDIC_select h) = Ok (Some m) \/
  fst (SelectorCV_select h) = Ok (Some m) ->
  (n_components m = n_constant s \/
   min_n_components s <= n_components m <= max_n_components s) /\
  (min_n_components s <= n_constant s <= max_n_components s ->
   min_n_components s <= n_components m <= max_n_components s) /\
  (fst (SelectorConstant_select h) = Ok (Some m) ->
   n_components m = n_constant s).
Proof.
  cbv zeta. intros Hsel.
  assert (Hconst : fst (SelectorConstant_select h) = Ok (Some m) ->
                   n_components m = n_constant (self h)).
  { unfold SelectorConstant_select. rewrite bind_get_self.
    destruct (base_model_run (n_constant (self h)) h) as [-> _].
    intros E. inversion E as [Hm]. now apply fit_model_n_components in Hm. }
  assert (Hsearch : forall better cand init,
            snd init = n_constant (self h) ->
            fit_model (self h)
              (snd (search better cand (candidates (self h)) init)) =
              Some m ->
            n_components m = n_constant (self h) \/
            min_n_components (self h) <= n_components m <=
              max_n_components (self h)).
  { intros better cand init Hi Hm. apply fit_model_n_components in Hm.
    rewrite Hm.
    destruct (search_cases better cand (candidates (self h)) init)
      as [-> | [Hin _]]; auto.
    right. now apply in_range. }
  assert (Hmain : n_components m = n_constant (self h) \/
                  min_n_components (self h) <= n_components m <=
                    max_n_components (self h)).
  { destruct Hsel as [Hc | [Hb | [Hd | Hv]]].
    - left. auto.
    - destruct (SelectorBIC_select_run h) as [E _]. rewrite E in Hb.
      inversion Hb as [Hm]. now apply Hsearch in Hm.
    - destruct (other_words_of (this_word (self h))
                  (dict_keys (all_word_sequences h))
                  (all_word_Xlengths h)) as [others |] eqn:Ho.
      + destruct (SelectorDIC_select_run h others Ho) as [E _].
        rewrite E in Hd. inversion Hd as [Hm]. now apply Hsearch in Hm.
      + rewrite (SelectorDIC_select_keyerror h Ho) in Hd. discriminate.
    - unfold SelectorCV_select in Hv. rewrite bind_run in Hv.
      destruct (SelectorCV_search_best h) as ([[lls mavg] best] & E & Hb).
      rewrite E in Hv. simpl in Hv, Hb.
      destruct (base_model_run best (snd (SelectorCV_search h)))
        as [E' _].
      rewrite E' in Hv. inversion Hv as [Hm].
      apply fit_model_n_components in Hm. rewrite Hm.
      destruct Hb as [-> | Hin]; auto. right. now apply in_range. }
  repeat split; auto; destruct Hmain as [-> | Hr]; lia.
Qed.

End FailureClaims.

Section FailureWitnesses.
#[local] Existing Instance Demo.externals.
#[local] Existing Instance Demo.scorer.



(** C6, as stated, fails.  On the sparse corpus the model of "A" fit at
    two states scores its own data and the data of "B", so a mean over the
    remaining other words exists, but the empty recording of "C" cannot be
    scored: the candidate is skipped all the same. *)
Lemma DIC_one_scoring_failure_is_fatal :
  let h := Scenario.sparse_selector_A in
  exists others k m own word v,
    fst (SelectorDIC_other_words h) = Ok others /\
    fit_model (self h) k = Some m /\
    hmm_score m (X (self h)) (lengths (self h)) = Some own /\
    In word others /\
    hmm_score m (fst word) (snd word) = Some v /\
    raises (fst (score_DIC others k h)) /\
    fst (SelectorDIC_search h) = Ok (neg_inf, n_constant (self h)).
Proof.
  cbv zeta.
  exists [([10; 11], [2]); ([], [0])], 2.
  do 2 eexists. exists ([10; 11], [2]). eexists.
  split; [reflexivity |].
  split; [vm_compute; reflexivity |].
  split; [vm_compute; reflexivity |].
  split; [left; reflexivity |].
  split; [vm_compute; reflexivity |].
  split; [vm_compute; exact I | vm_compute; reflexivity].
Qed.

Lemma DIC_candidate_needs_every_score_witness :
  let h := Scenario.sparse_selector_A in
  raises (fst (score_DIC [([10; 11], [2]); ([], [0])] 2 h)) /\
  fst (SelectorDIC_search h) = Ok (Demo.NInf, 3).
Proof.
  cbv zeta.
  edestruct (DIC_candidate_needs_every_score Scenario.sparse_selector_A
               [([10; 11], [2]); ([], [0])] 2) as [Hfail _].
  - reflexivity.
  - vm_compute. reflexivity.
  - destruct (Hfail ([], [0])) as [Hr Hs].
    + right. left. reflexivity.
    + reflexivity.
    + split; [exact Hr |]. rewrite Hs. vm_compute. reflexivity.
Defined.

(** C7, as stated, fails.  With a fallback state count of 1 and the
    search interval [[2, 10]], SelectorConstant returns a model with one
    state. *)
Lemma constant_model_outside_interval :
  let h := Scenario.selector_A_low_fallback in
  exists m,
    fst (SelectorConstant_select h) = Ok (Some m) /\
    ~ (min_n_components (self h) <= n_components m <=
       max_n_components (self h)).
Proof.
  cbv zeta. eexists. split.
  - vm_compute. reflexivity.
  - simpl. lia.
Qed.

Lemma selected_states_fallback_or_in_interval_witness :
  let h := Scenario.selector_A in
  exists m,
    fst (SelectorCV_select h) = Ok (Some m) /\
    2 <= n_components m <= 10.
Proof.
  cbv zeta. eexists. split.
  - vm_compute. reflexivity.
  - edestruct (selected_states_fallback_or_in_interval Scenario.selector_A)
      as (_ & Hin & _).
    + right. right. right. vm_compute. reflexivity.
    + apply Hin. simpl. lia.
Defined.

End FailureWitnesses.

(* ===================================================================== *)
(** ** The recognizer on items that can be scored                         *)
(* ===================================================================== *)

Section RecognizerTables.
Context {EX : Externals} {SC : Scorer}.

Lemma dict_set_new (d : list (string * float)) (k : string) (v : float) :
  ~ In k (dict_keys d) -> dict_set String.eqb d k v = d ++ [(k, v)].
Proof.
  induction d as [| [k' v'] d IH]; simpl; intros Hn; auto.
  destruct (String.eqb_spec k' k) as [-> | Hne].
  - exfalso. apply Hn. now left.
  - f_equal. apply IH. intros Hin. apply Hn. now right.
Qed.

Lemma scored_entries_keys (x : array) (l : list Z)
    (models : list (string * option GaussianHMM)) (w : string) :
  In w (dict_keys (scored_entries x l models)) -> In w (dict_keys models).
Proof.
  unfold scored_entries, dict_keys. rewrite !in_map_iff.
  intros ([w' v] & <- & Hin). apply in_flat_map in Hin.
  destruct Hin as ([w0 m0] & Hm & Hv). simpl in Hv.
  destruct (py_score m0 x l); simpl in Hv; [| easy].
  destruct Hv as [E | []]. inversion E; subst. now exists (w', m0).
Qed.

Lemma scored_entries_app (x : array) (l : list Z)
    (m1 m2 : list (string * option GaussianHMM)) :
  scored_entries x l (m1 ++ m2) =
  scored_entries x l m1 ++ scored_entries x l m2.
Proof. unfold scored_entries. apply flat_map_app. Qed.

Lemma score_table_entries (models : list (string * option GaussianHMM))
    (x : array) (l : list Z) :
  NoDup (dict_keys models) ->
  score_table models x l = scored_entries x l models.
Proof.
  intros Hnd. unfold score_table.
  assert (G : forall suf pre, models = pre ++ suf ->
    fold_left
      (fun probs_dict w =>
         match dict_get String.eqb models w with
         | Ok model =>
             match py_score model x l with
             | Ok v => dict_set String.eqb probs_dict w v
             | Raise _ => probs_dict
             end
         | Raise _ => probs_dict
         end) (dict_keys suf) (scored_entries x l pre) =
    scored_entries x l models).
  { induction suf as [| [w m] suf IH]; intros pre Hm.
    - simpl. rewrite app_nil_r in Hm. now subst.
    - simpl.
      assert (Hin : In (w, m) models).
      { rewrite Hm. apply in_or_app. right. now left. }
      rewrite (dict_get_nodup String.eqb String_eqb_iff models w m Hnd Hin).
      assert (Hnew : ~ In w (dict_keys (scored_entries x l pre))).
      { intros Hk. apply scored_entries_keys in Hk.
        rewrite Hm in Hnd. unfold dict_keys in Hnd, Hk.
        rewrite map_app in Hnd. simpl in Hnd.
        apply NoDup_remove_2 in Hnd. apply Hnd.
        apply in_or_app. now left. }
      specialize (IH (pre ++ [(w, m)])).
      rewrite <- app_assoc in IH. specialize (IH Hm).
      rewrite scored_entries_app in IH. unfold scored_entries at 2 in IH.
      simpl in IH.
      destruct (py_score m x l) as [v | e].
      + rewrite dict_set_new by exact Hnew. simpl in IH. exact IH.
      + simpl in IH. rewrite app_nil_r in IH. exact IH. }
  apply (G models []). reflexivity.
Qed.

(** X1.  The score table of a test item holds exactly the words whose
    model scores the item, each with its log-likelihood, in the order of
    [models]; a word without a model or whose model fails on the item is
    left out, and no word appears twice. *)
Theorem score_table_keeps_scored_words
    (models : list (string * option GaussianHMM)) (x : array) (l : list Z) :
  NoDup (dict_keys models) ->
  (forall w v,
     In (w, v) (score_table models x l) <->
     exists model, In (w, model) models /\ py_score model x l = Ok v) /\
  dict_keys (score_table models x l) =
    dict_keys (filter (scores_item x l) models) /\
  NoDup (dict_keys (score_table models x l)).
Proof.
  intros Hnd. rewrite (score_table_entries models x l Hnd).
  assert (Hkeys : dict_keys (scored_entries x l models) =
                  dict_keys (filter (scores_item x l) models)).
  { clear Hnd. unfold scored_entries, dict_keys, scores_item.
    induction models as [| [w m] ms IH]; simpl; auto.
    destruct (py_score m x l); simpl; now rewrite IH. }
  split; [| split].
  - intros w v. unfold scored_entries. rewrite in_flat_map. split.
    + intros ([w0 m0] & Hin & Hv). simpl in Hv.
      destruct (py_score m0 x l) as [v0 | e] eqn:E; simpl in Hv; [| easy].
      destruct Hv as [Ev | []]. inversion Ev; subst. now exists m0.
    + intros (model & Hin & E). exists (w, model). split; auto.
      simpl. rewrite E. now left.
  - exact Hkeys.
  - rewrite Hkeys. unfold dict_keys.
    clear Hkeys. induction models as [| [w m] ms IH]; simpl.
    + constructor.
    + inversion Hnd as [| ? ? Hnotin Hnd']; subst.
      destruct (scores_item x l (w, m)); simpl; auto.
      constructor; auto. intros Hin. apply Hnotin.
      apply in_map_iff in Hin. destruct Hin as (it & <- & Hf).
      apply filter_In in Hf. apply in_map. apply Hf.
Qed.

Lemma py_max_fold_in (rest : list (string * float)) (item : string * float) :
  let r := fold_left
             (fun max_item it =>
                if fltb (snd max_item) (snd it) then it else max_item)
             rest item in
  r = item \/ In r rest.
Proof.
  cbv zeta. revert item. induction rest as [| a rest IH]; intros item; simpl.
  - now left.
  - destruct (fltb (snd item) (snd a)).
    + destruct (IH a) as [-> | H]; auto.
    + destruct (IH item) as [-> | H]; auto.
Qed.

(** Without a later entry that beats the first one, the first one is the
    guess. *)
Lemma py_max_fold_first (rest : list (string * float))
    (item : string * float) :
  (forall it, In it rest -> fltb (snd item) (snd it) = false) ->
  fold_left
    (fun max_item it =>
       if fltb (snd max_item) (snd it) then it else max_item)
    rest item = item.
Proof.
  induction rest as [| a rest IH]; intros H; simpl; auto.
  rewrite (H a (or_introl eq_refl)). apply IH.
  intros it Hit. apply H. now right.
Qed.

Context {FO : FloatOrder}.

Lemma py_max_fold_best (rest : list (string * float))
    (item : string * float) :
  let r := fold_left
             (fun max_item it =>
                if fltb (snd max_item) (snd it) then it else max_item)
             rest item in
  (snd r = snd item \/ fltb (snd item) (snd r) = true) /\
  forall it, In it rest -> fltb (snd r) (snd it) = false.
Proof.
  cbv zeta. revert item. induction rest as [| a rest IH]; intros item; simpl.
  - split; [now left | intros it []].
  - destruct (fltb (snd item) (snd a)) eqn:E.
    + destruct (IH a) as [[H1 | H1] H2].
      * split; [right; now rewrite H1 |].
        intros it [<- | Hit]; auto. rewrite H1. apply fltb_irrefl.
      * split; [right; now apply fltb_trans with (snd a) |].
        intros it [<- | Hit]; auto. now apply fltb_asym.
    + destruct (IH item) as [[H1 | H1] H2].
      * split; [now left |].
        intros it [<- | Hit]; auto. now rewrite H1.
      * split; [now right |].
        intros it [<- | Hit]; auto.
        destruct (fltb (snd (fold_left _ rest item)) (snd a)) eqn:E'; auto.
        rewrite (fltb_trans _ _ _ H1 E') in E. discriminate.
Qed.

(** X2.  The guess for a non-empty score table is a word of the table
    that no word of the table outscores; among words with the best score
    the first one in table order wins: when no later entry beats the first
    entry, the first entry is the guess. *)
Theorem py_max_is_first_argmax (probs_dict : list (string * float)) :
  probs_dict <> [] ->
  (exists guess v,
     py_max probs_dict = Ok guess /\
     In (guess, v) probs_dict /\
     forall w' v', In (w', v') probs_dict -> fltb v v' = false) /\
  (forall item rest,
     probs_dict = item :: rest ->
     (forall it, In it rest -> fltb (snd item) (snd it) = false) ->
     py_max probs_dict = Ok (fst item)).
Proof.
  intros Hne. split.
  - destruct probs_dict as [| item rest]; [congruence |]. simpl.
    set (r := fold_left _ rest item).
    exists (fst r), (snd r). split; [reflexivity |].
    destruct (py_max_fold_in rest item) as [Hr | Hr];
      destruct (py_max_fold_best rest item) as [Hb1 Hb2];
      fold r in Hr, Hb1, Hb2.
    + split; [left; rewrite <- Hr; now destruct r |].
      intros w' v' [E | Hin].
      * replace v' with (snd item) by now rewrite E.
        rewrite Hr. apply fltb_irrefl.
      * apply (Hb2 (w', v') Hin).
    + split; [right; now destruct r |].
      intros w' v' [E | Hin].
      * replace v' with (snd item) by now rewrite E.
        destruct Hb1 as [Hb1 | Hb1].
        -- rewrite Hb1. apply fltb_irrefl.
        -- now apply fltb_asym.
      * apply (Hb2 (w', v') Hin).
  - intros item rest -> H. simpl. now rewrite py_max_fold_first.
Qed.

End RecognizerTables.

Section RecognizerResults.
Context {EX : Externals} {SC : Scorer}.

Lemma recognize_items_ok (models : list (string * option GaussianHMM))
    (test_set : list (Z * (array * list Z))) :
  NoDup (dict_keys test_set) ->
  (forall item, In item test_set ->
     score_table models (fst (snd item)) (snd (snd item)) <> []) ->
  forall suf pre probabilities guesses,
    test_set = pre ++ suf ->
    exists gs,
      recognize_items models test_set (dict_keys suf) probabilities guesses =
        Ok (probabilities ++
            map (fun item =>
                   score_table models (fst (snd item)) (snd (snd item))) suf,
            guesses ++ gs) /\
      map Ok gs =
        map (fun item =>
               py_max (score_table models (fst (snd item)) (snd (snd item))))
            suf.
Proof.
  intros Hnd Hne.
  induction suf as [| [id [x l]] suf IH]; intros pre probs guesses Hts.
  - exists []. simpl. now rewrite !app_nil_r.
  - simpl.
    assert (Hin : In (id, (x, l)) test_set).
    { rewrite Hts. apply in_or_app. right. now left. }
    rewrite (dict_get_nodup Z.eqb Z.eqb_eq test_set id (x, l) Hnd Hin).
    specialize (Hne (id, (x, l)) Hin). simpl in Hne.
    destruct (py_max (score_table models x l)) as [guess | e] eqn:Em.
    + destruct (IH (pre ++ [(id, (x, l))])
                  (probs ++ [score_table models x l]) (guesses ++ [guess]))
        as (gs & E & Hgs).
      { now rewrite <- app_assoc. }
      exists (guess :: gs). rewrite E, <- !app_assoc. simpl.
      split; [reflexivity | now rewrite Hgs].
    + apply py_max_raises in Em. destruct Em as [_ Em]. congruence.
Qed.

(** X3.  When the test ids are distinct and every test item is scored by
    at least one model, [recognize] returns one score table and one guess
    per test item, in the order of the test set: the table of an item
    depends on that item only, and its guess is [max] over that table. *)
Theorem recognize_returns_table_and_guess_per_item
    (models : list (string * option GaussianHMM))
    (all_word_Xlengths : list (Z * (array * list Z))) :
  NoDup (dict_keys all_word_Xlengths) ->
  NoDup (dict_keys models) ->
  (forall id x l, In (id, (x, l)) all_word_Xlengths ->
     exists w model v, In (w, model) models /\ py_score model x l = Ok v) ->
  exists guesses,
    recognize models all_word_Xlengths =
      Ok (map (fun item =>
                 score_table models (fst (snd item)) (snd (snd item)))
              all_word_Xlengths,
          guesses) /\
    List.length guesses = List.length all_word_Xlengths /\
    map Ok guesses =
      map (fun item =>
             py_max (score_table models (fst (snd item)) (snd (snd item))))
          all_word_Xlengths.
Proof.
  intros Hnd Hm Hscored.
  destruct (recognize_items_ok models all_word_Xlengths Hnd) with
    (suf := all_word_Xlengths) (pre := @nil (Z * (array * list Z)))
    (probabilities := @nil (list (string * float)))
    (guesses := @nil string) as (gs & E & Hgs).
  - intros [id [x l]] Hin. simpl.
    destruct (Hscored id x l Hin) as (w & model & v & Hw & Hv).
    intros Hempty.
    assert (Hi : In (w, v) (score_table models x l)).
    { rewrite (score_table_entries models x l Hm).
      unfold scored_entries. apply in_flat_map. exists (w, model).
      split; [exact Hw |]. cbn [fst snd]. rewrite Hv. now left. }
    rewrite Hempty in Hi. destruct Hi.
  - reflexivity.
  - exists gs. simpl in E. split; [exact E |]. split; [| exact Hgs].
    rewrite <- (length_map (@Ok string) gs), Hgs. apply length_map.
Qed.

End RecognizerResults.

Section RecognizerResultWitnesses.
#[local] Existing Instance Demo.externals.
#[local] Existing Instance Demo.scorer.

Lemma score_table_keeps_scored_words_witness :
  dict_keys (score_table Scenario.models [1; 2] [2]) = ["A"%string] /\
  NoDup (dict_keys (score_table Scenario.models [1; 2] [2])).
Proof.
  destruct (score_table_keeps_scored_words Scenario.models [1; 2] [2])
    as (_ & Hk & Hn).
  - repeat constructor; simpl; intuition discriminate.
  - split; [rewrite Hk; reflexivity | exact Hn].
Defined.

Lemma py_max_is_first_argmax_witness :
  py_max (score_table Cases.twin_models [1; 2] [2]) = Ok "A"%string.
Proof.
  destruct (py_max_is_first_argmax (FO := Demo_float_order)
              (score_table Cases.twin_models [1; 2] [2])) as [_ Hfirst].
  - vm_compute. discriminate.
  - apply (Hfirst ("A"%string, Demo.Fin (-1))
                  [("A2"%string, Demo.Fin (-1))]).
    + reflexivity.
    + intros it [<- | []]. reflexivity.
Defined.

Lemma recognize_returns_table_and_guess_per_item_witness :
  exists guesses,
    recognize Scenario.models Cases.scorable_Xlengths =
      Ok ([score_table Scenario.models [1; 2] [2];
           score_table Scenario.models [5] [1]], guesses) /\
    List.length guesses = 2%nat.
Proof.
  destruct (recognize_returns_table_and_guess_per_item Scenario.models
              Cases.scorable_Xlengths) as (guesses & E & Hl & _).
  - repeat constructor; simpl; intuition discriminate.
  - repeat constructor; simpl; intuition discriminate.
  - intros id x l Hin. exists "A"%string, (Some Scenario.model_A).
    simpl in Hin. destruct Hin as [E | [E | []]]; inversion E; subst;
      eexists; (split; [left; reflexivity | vm_compute; reflexivity]).
  - exists guesses. split; [exact E | exact Hl].
Defined.

End RecognizerResultWitnesses.

(* ===================================================================== *)
(** ** Construction of a selector                                         *)
(* ===================================================================== *)

Section Construction.
Context {EX : Externals} {SC : Scorer}.

Lemma dict_get_missing {V : Type} (d : list (string * V)) (k : string) :
  ~ In k (dict_keys d) -> dict_get String.eqb d k = Raise KeyError.
Proof.
  induction d as [| [k' v'] d IH]; simpl; intros Hn; auto.
  destruct (String.eqb_spec k' k) as [-> | Hne].
  - exfalso. apply Hn. now left.
  - apply IH. intros Hin. apply Hn. now right.
Qed.

Lemma dict_get_found {V : Type} (d : list (string * V)) (k : string)
    (v : V) :
  dict_get String.eqb d k = Ok v -> In k (dict_keys d).
Proof.
  induction d as [| [k' v'] d IH]; simpl; intros E; [discriminate |].
  destruct (String.eqb_spec k' k) as [-> | Hne]; auto.
Qed.

(** X4.  [ModelSelector(words, hwords, this_word, ...)] can be built
    exactly when [this_word] is a key of both mappings, and fails with a
    [KeyError] otherwise.  The selector it builds holds the two mappings
    themselves, the entries of [this_word] in them as [sequences] and
    [(X, lengths)], and the configuration it was given. *)
Theorem ModelSelector_init_needs_word_in_both_mappings
    (words : list (string * list sequence))
    (hwords : list (string * (array * list Z)))
    (word : string) (nc mn mx rs : Z) (vb : bool) :
  let built := ModelSelector_init words hwords word nc mn mx rs vb in
  (In word (dict_keys words) /\ In word (dict_keys hwords) <->
   exists h, built = Ok h) /\
  (~ (In word (dict_keys words) /\ In word (dict_keys hwords)) <->
   built = Raise KeyError) /\
  (forall h, built = Ok h ->
     all_word_sequences h = words /\
     all_word_Xlengths h = hwords /\
     dict_get String.eqb words word = Ok (sequences (self h)) /\
     dict_get String.eqb hwords word = Ok (X (self h), lengths (self h)) /\
     this_word (self h) = word /\
     (n_constant (self h), min_n_components (self h),
      max_n_components (self h)) = (nc, mn, mx) /\
     (random_state (self h), verbose (self h)) = (rs, vb) /\
     stdout h = []).
Proof.
  cbv zeta. unfold ModelSelector_init.
  destruct (dict_get String.eqb words word) as [seqs | e] eqn:Ew.
  - destruct (dict_get String.eqb hwords word) as [[x l] | e] eqn:Eh.
    + pose proof (dict_get_found _ _ _ Ew) as Hw.
      pose proof (dict_get_found _ _ _ Eh) as Hh.
      split; [| split].
      * split; eauto.
      * split; [intros Hn; exfalso; auto | discriminate].
      * intros h E. inversion E; subst. simpl. repeat split; auto.
    + assert (Hh : ~ In word (dict_keys hwords)).
      { intros Hin.
        destruct (dict_get_some String.eqb String_eqb_iff hwords word Hin)
          as (v & Ev & _). congruence. }
      rewrite (dict_get_missing _ _ Hh) in Eh. inversion Eh; subst.
      split; [| split].
      * split; [intros [_ Hin]; contradiction | intros [h E]; discriminate].
      * split; auto. intros _ [_ Hin]. contradiction.
      * discriminate.
  - assert (Hw : ~ In word (dict_keys words)).
    { intros Hin.
      destruct (dict_get_some String.eqb String_eqb_iff words word Hin)
        as (v & Ev & _). congruence. }
    rewrite (dict_get_missing _ _ Hw) in Ew. inversion Ew; subst.
    split; [| split].
    + split; [intros [Hin _]; contradiction | intros [h E]; discriminate].
    + split; auto. intros _ [Hin _]. contradiction.
    + discriminate.
Qed.

End Construction.

(* ===================================================================== *)
(** ** What the searches fit, and in which order                          *)
(* ===================================================================== *)

(** Opens a statement one construct at a time, trying the lemmas of the
    [frame] database first. *)
Ltac preserve_all :=
  repeat first
    [ solve [ auto with frame ]
    | apply preserves_bind; [| intros ? ]
    | apply preserves_for_loop; intros ? ?
    | apply preserves_try
    | apply preserves_if
    | match goal with
      | |- preserves _ (match ?x with _ => _ end) => destruct x
      | |- preserves _ (let '(_, _) := ?x in _) => destruct x
      end
    | progress cbv beta zeta ].

Section Logs.
Context {EX : Externals} {SC : Scorer}.

Hint Resolve preserves_ret preserves_raise preserves_lift preserves_call
  preserves_get_self preserves_get_words preserves_get_hwords
  preserves_model_score preserves_math_log : frame.

Lemma log_lines_app (s : ModelSelector) (l1 l2 : list Z) :
  log_lines s (l1 ++ l2) = log_lines s l1 ++ log_lines s l2.
Proof.
  unfold log_lines. destruct (verbose s); [apply map_app | reflexivity].
Qed.

Lemma base_model_stdout (k : Z) (h : heap) :
  stdout (snd (base_model k h)) = stdout h ++ log_lines (self h) [k].
Proof.
  unfold base_model, log_lines, log_line, fit_model, bind, get_self,
    try_except, call, ret, raise.
  destruct (hmm_fit k 1000 (random_state (self h)) (X (self h))
              (lengths (self h))) as [p |] eqn:Ef; simpl;
    destruct (verbose (self h)); simpl; rewrite ?Ef, ?app_nil_r;
    reflexivity.
Qed.

Lemma score_BIC_prints_one_fit : prints_one_fit score_BIC.
Proof.
  intros k h. split; [| apply score_BIC_run].
  unfold score_BIC. rewrite bind_run.
  destruct (base_model_run k h) as [E S]. rewrite E.
  rewrite <- (base_model_stdout k h).
  set (h1 := snd (base_model k h)).
  rewrite bind_get_self, bind_run. unfold model_score, lift. simpl.
  destruct (py_score (fit_model (self h) k) (X (self h1)) (lengths (self h1)));
    simpl; auto.
  destruct (fit_model (self h) k); simpl; auto.
  rewrite bind_run. unfold math_log.
  destruct (Z.of_nat (List.length (sequences (self h1))) <=? 0); reflexivity.
Qed.

Lemma score_DIC_prints_one_fit (others : list (array * list Z)) :
  prints_one_fit (score_DIC others).
Proof.
  intros k h. split; [| apply score_DIC_run].
  unfold score_DIC. rewrite bind_run.
  destruct (base_model_run k h) as [E S]. rewrite E.
  rewrite <- (base_model_stdout k h).
  set (h1 := snd (base_model k h)).
  assert (L : forall model acc,
    snd (for_loop others
           (fun word acc =>
              v <- model_score model (fst word) (snd word) ;;
              ret (acc ++ [v])) acc h1) = h1).
  { intros model. induction others as [| w rest IH]; intros acc; simpl; auto.
    rewrite bind_run. unfold model_score at 1. unfold lift, bind, ret. simpl.
    destruct (py_score model (fst w) (snd w)); simpl; auto. }
  rewrite bind_run.
  destruct (fst (for_loop others _ [] h1)) as [anti | e] eqn:El;
    rewrite L; simpl; auto.
  unfold bind, get_self, model_score, lift, ret. simpl.
  destruct (py_score (fit_model (self h) k) (X (self h1)) (lengths (self h1)));
    reflexivity.
Qed.

Lemma search_loop_stdout (better : float -> float -> bool)
    (score : Z -> M float) (h0 : heap) :
  prints_one_fit score ->
  forall l acc h, same_objects h0 h ->
    stdout (snd (for_loop l
                   (fun num '(cur, best) =>
                      try_except
                        (sc <- score num ;;
                         if better sc cur then ret (sc, num)
                         else ret (cur, best))
                        (ret (cur, best))) acc h)) =
    stdout h ++ log_lines (self h0) l.
Proof.
  intros Hp. induction l as [| a l IH]; intros acc h Hh; simpl.
  - unfold log_lines. destruct (verbose (self h0)); simpl;
      now rewrite app_nil_r.
  - rewrite bind_run. destruct acc as [cur best].
    rewrite try_except_run, bind_run.
    destruct (Hp a h) as [Hout Hs].
    assert (Hh' : same_objects h0 (snd (score a h)))
      by now apply same_objects_trans with h.
    change (a :: l) with ([a] ++ l). rewrite log_lines_app, app_assoc.
    replace (self h0) with (self h) at 1 by apply Hh.
    rewrite <- Hout.
    destruct (fst (score a h)) as [sc | e]; simpl.
    + destruct (better sc cur); simpl; apply IH; exact Hh'.
    + apply IH; exact Hh'.
Qed.

(** X5.  Every searching strategy fits each state count of the interval
    exactly once, in ascending order, and then fits the selected count a
    second time for the model it returns: under [verbose] the output of
    [select()] is one line per candidate followed by one line for the
    selected count, and nothing is printed otherwise.  SelectorConstant
    fits once. *)
Theorem select_fits_candidates_in_order_then_refits (h : heap) :
  let s := self h in
  stdout (snd (SelectorConstant_select h)) =
    stdout h ++ log_lines s [n_constant s] /\
  stdout (snd (SelectorBIC_select h)) =
    stdout h ++
    log_lines s
      (candidates s ++
       [snd (search fltb (BIC_spec s) (candidates s) (inf, n_constant s))]) /\
  (forall others,
     other_words_of (this_word s) (dict_keys (all_word_sequences h))
       (all_word_Xlengths h) = Some others ->
     stdout (snd (SelectorDIC_select h)) =
       stdout h ++
       log_lines s
         (candidates s ++
          [snd (search fgtb (DIC_spec s others) (candidates s)
                  (neg_inf, n_constant s))])) /\
  (verbose s = false ->
   stdout (snd (SelectorBIC_select h)) = stdout h /\
   stdout (snd (SelectorCV_select h)) = stdout h).
Proof.
  cbv zeta.
  assert (HB : stdout (snd (SelectorBIC_select h)) =
    stdout h ++
    log_lines (self h)
      (candidates (self h) ++
       [snd (search fltb (BIC_spec (self h)) (candidates (self h))
               (inf, n_constant (self h)))])).
  { unfold SelectorBIC_select. rewrite bind_run.
    destruct (SelectorBIC_search_run h) as [E S]. rewrite E.
    set (r := search _ _ _ _). destruct r as [sc best] eqn:Er. simpl.
    rewrite base_model_stdout, log_lines_app, app_assoc.
    replace (self (snd (SelectorBIC_search h))) with (self h)
      by (symmetry; apply S).
    f_equal. unfold SelectorBIC_search. rewrite bind_get_self.
    apply (search_loop_stdout fltb score_BIC h score_BIC_prints_one_fit).
    apply same_objects_refl. }
  split; [| split; [exact HB | split]].
  - unfold SelectorConstant_select. rewrite bind_get_self.
    apply base_model_stdout.
  - intros others Ho. unfold SelectorDIC_select. rewrite bind_run.
    destruct (SelectorDIC_search_run h others Ho) as [E S]. rewrite E.
    set (r := search _ _ _ _). destruct r as [sc best] eqn:Er. simpl.
    rewrite base_model_stdout, log_lines_app, app_assoc.
    replace (self (snd (SelectorDIC_search h))) with (self h)
      by (symmetry; apply S).
    f_equal. unfold SelectorDIC_search.
    rewrite bind_get_self, bind_run, SelectorDIC_other_words_run, Ho.
    cbv beta iota delta [fst snd].
    apply (search_loop_stdout fgtb (score_DIC others) h
             (score_DIC_prints_one_fit others)).
    apply same_objects_refl.
  - intros Hv. split.
    + rewrite HB. unfold log_lines. rewrite Hv. apply app_nil_r.
    + assert (P : preserves (fun h1 => same_config h h1 /\
                                        stdout h1 = stdout h)
                    SelectorCV_select).
      { assert (Pb : forall k, preserves
                   (fun h1 => same_config h h1 /\ stdout h1 = stdout h)
                   (base_model k)).
        { intros k h1 [Hc Ho]. split.
          - now apply preserves_base_model.
          - rewrite base_model_stdout, Ho. unfold log_lines.
            replace (verbose (self h1)) with (verbose (self h)).
            + rewrite Hv. apply app_nil_r.
            + symmetry. apply Hc. }
        assert (Ps : forall v, preserves
                   (fun h1 => same_config h h1 /\ stdout h1 = stdout h)
                   (set_X_lengths v)).
        { intros v h1 [Hc Ho]. split; [exact Hc | exact Ho]. }
        unfold SelectorCV_select, SelectorCV_search, cv_score, cv_fold.
        preserve_all. }
      apply P. split; [apply same_config_refl | reflexivity].
Qed.

End Logs.

(* ===================================================================== *)
(** ** SelectorDIC and the other words                                    *)
(* ===================================================================== *)

Section OtherWords.
Context {EX : Externals} {SC : Scorer}.

Lemma other_words_of_none (this : string) (words : list string)
    (hwords : list (string * (array * list Z))) :
  other_words_of this words hwords = None <->
  exists word, In word words /\ word <> this /\
               ~ In word (dict_keys hwords).
Proof.
  induction words as [| w rest IH]; simpl.
  - split; [discriminate | intros (word & [] & _)].
  - destruct (String.eqb_spec w this) as [-> | Hne]; simpl.
    + rewrite IH. split.
      * intros (word & Hin & Hw). exists word. auto.
      * intros (word & [<- | Hin] & Hw & Hm); [congruence |].
        exists word. auto.
    + destruct (dict_get String.eqb hwords w) as [v | e] eqn:Eg.
      * pose proof (dict_get_found _ _ _ Eg) as Hf.
        destruct (other_words_of this rest hwords) as [vs |] eqn:Eo.
        -- split; [discriminate |].
           intros (word & [<- | Hin] & Hw & Hm); [contradiction |].
           assert (C : Some vs = None) by (apply IH; exists word; auto).
           discriminate.
        -- split; auto. intros _.
           destruct (proj1 IH eq_refl) as (word & Hin & Hw).
           exists word. auto.
      * split; auto. intros _. exists w. repeat split; auto.
        intros Hin.
        destruct (dict_get_some String.eqb String_eqb_iff hwords w Hin)
          as (v & Ev & _). congruence.
Qed.

Lemma other_words_of_entries (this : string) (words : list string)
    (hwords : list (string * (array * list Z)))
    (others : list (array * list Z)) :
  other_words_of this words hwords = Some others ->
  map Ok others =
  map (dict_get String.eqb hwords)
      (filter (fun word => negb (String.eqb word this)) words).
Proof.
  revert others. induction words as [| w rest IH]; simpl; intros others E.
  - now inversion E.
  - destruct (negb (String.eqb w this)); simpl; auto.
    destruct (dict_get String.eqb hwords w) as [v | e]; [| discriminate].
    destruct (other_words_of this rest hwords) as [vs |]; [| discriminate].
    inversion E; subst. simpl. f_equal. now apply IH.
Qed.

(** X6.  [SelectorDIC.select()] raises a [KeyError] exactly when some
    word of [all_word_sequences] other than [this_word] has no entry in
    [all_word_Xlengths]; it then raises before fitting anything and leaves
    the heap as it was.  In every other case it returns. *)
Theorem SelectorDIC_select_keyerror_iff_word_without_data (h : heap) :
  let s := self h in
  let incomplete :=
    exists word, In word (dict_keys (all_word_sequences h)) /\
                 word <> this_word s /\
                 ~ In word (dict_keys (all_word_Xlengths h)) in
  (incomplete <-> fst (SelectorDIC_select h) = Raise KeyError) /\
  (incomplete <-> raises (fst (SelectorDIC_select h))) /\
  (raises (fst (SelectorDIC_select h)) -> snd (SelectorDIC_select h) = h).
Proof.
  cbv zeta.
  destruct (other_words_of (this_word (self h))
              (dict_keys (all_word_sequences h)) (all_word_Xlengths h))
    as [others |] eqn:Ho.
  - destruct (SelectorDIC_select_run h others Ho) as [E _].
    assert (Hn : ~ exists word,
               In word (dict_keys (all_word_sequences h)) /\
               word <> this_word (self h) /\
               ~ In word (dict_keys (all_word_Xlengths h))).
    { intros Hex. apply other_words_of_none in Hex. congruence. }
    rewrite E. simpl. repeat split; try tauto; try discriminate.
  - pose proof (proj1 (other_words_of_none _ _ _) Ho) as Hex.
    assert (E : SelectorDIC_select h = (Raise KeyError, h)).
    { unfold SelectorDIC_select, SelectorDIC_search.
      rewrite bind_run, bind_get_self, bind_run,
        SelectorDIC_other_words_run, Ho.
      reflexivity. }
    rewrite E. simpl. repeat split; auto.
Qed.

(** X7.  The data sets SelectorDIC scores a candidate against are the
    entries of [all_word_Xlengths] for the words of [all_word_sequences]
    other than [this_word], in the order of [all_word_sequences]: the
    word's own data is never among them, and every candidate is scored
    against the same list. *)
Theorem SelectorDIC_other_words_are_the_other_entries (h : heap)
    (others : list (array * list Z)) :
  let s := self h in
  fst (SelectorDIC_other_words h) = Ok others ->
  map Ok others =
    map (dict_get String.eqb (all_word_Xlengths h))
        (filter (fun word => negb (String.eqb word (this_word s)))
                (dict_keys (all_word_sequences h))) /\
  snd (SelectorDIC_other_words h) = h /\
  fst (SelectorDIC_search h) =
    Ok (search fgtb (DIC_spec s others) (candidates s)
          (neg_inf, n_constant s)).
Proof.
  cbv zeta. rewrite SelectorDIC_other_words_run. simpl.
  destruct (other_words_of (this_word (self h))
              (dict_keys (all_word_sequences h)) (all_word_Xlengths h))
    as [vs |] eqn:Ho; [| discriminate].
  intros E. inversion E; subst vs. split; [| split].
  - now apply other_words_of_entries.
  - reflexivity.
  - apply SelectorDIC_search_run. exact Ho.
Qed.

Lemma search_never_better (better : float -> float -> bool)
    (cand : Z -> option float) (l : list Z) (init : float * Z) :
  (forall k sc, In k l -> cand k = Some sc -> better sc (fst init) = false) ->
  search better cand l init = init.
Proof.
  revert init. induction l as [| a l IH]; intros init H; auto.
  change (search better cand (a :: l) init)
    with (search better cand l (pick better cand init a)).
  assert (E : pick better cand init a = init).
  { unfold pick. destruct (cand a) as [sc |] eqn:Ea; auto.
    now rewrite (H a sc (or_introl eq_refl) Ea). }
  rewrite E. apply IH. intros k sc Hk. apply H. now right.
Qed.

(** X8.  On a corpus whose only word is [this_word] there is nothing to
    discriminate against: each candidate's score is its own log-likelihood
    minus the mean of an empty list.  When that difference does not
    compare above minus infinity (numpy's mean of an empty list is
    not-a-number), no candidate is ever selected and [select()] returns
    the fit at the fallback [n_constant]. *)
Theorem SelectorDIC_alone_returns_fallback (h : heap) :
  let s := self h in
  (forall word, In word (dict_keys (all_word_sequences h)) ->
                word = this_word s) ->
  (forall v : float, fltb neg_inf (fsub v (np_mean [])) = false) ->
  fst (SelectorDIC_other_words h) = Ok [] /\
  (forall k v, own_score s k = Some v ->
     fst (score_DIC [] k h) = Ok (fsub v (np_mean []))) /\
  fst (SelectorDIC_search h) = Ok (neg_inf, n_constant s) /\
  fst (SelectorDIC_select h) = Ok (fit_model s (n_constant s)).
Proof.
  cbv zeta. intros Hone Hnan.
  assert (Ho : other_words_of (this_word (self h))
                 (dict_keys (all_word_sequences h)) (all_word_Xlengths h) =
               Some []).
  { revert Hone. generalize (dict_keys (all_word_sequences h)).
    induction l as [| w rest IH]; simpl; intros Hone; auto.
    rewrite (Hone w (or_introl eq_refl)), String.eqb_refl. simpl.
    apply IH. intros word Hin. apply Hone. now right. }
  assert (Hspec : forall k, DIC_spec (self h) [] k =
            option_map (fun v => fsub v (np_mean [])) (own_score (self h) k)).
  { intros k. unfold DIC_spec, own_score.
    destruct (fit_model (self h) k); simpl; auto;
      try now destruct (hmm_score _ _ _). }
  assert (Hs : search fgtb (DIC_spec (self h) []) (candidates (self h))
                 (neg_inf, n_constant (self h)) =
               (neg_inf, n_constant (self h))).
  { apply search_never_better. intros k sc _ Hc. simpl. unfold fgtb.
    rewrite Hspec in Hc. destruct (own_score (self h) k); inversion Hc.
    apply Hnan. }
  repeat split.
  - rewrite SelectorDIC_other_words_run, Ho. reflexivity.
  - intros k v Hv. apply ok_of_Some.
    destruct (score_DIC_run [] k h) as [-> _]. rewrite Hspec, Hv.
    reflexivity.
  - destruct (SelectorDIC_search_run h [] Ho) as [-> _]. now rewrite Hs.
  - destruct (SelectorDIC_select_run h [] Ho) as [-> _]. now rewrite Hs.
Qed.

End OtherWords.

(* ===================================================================== *)
(** ** Bounds of the search and repeated selection                        *)
(* ===================================================================== *)

Section Bounds.
Context {EX : Externals} {SC : Scorer}.

Lemma range_empty (a b : Z) : b < a -> range a (b + 1) = [].
Proof.
  intros H. unfold range. replace (Z.to_nat (b + 1 - a)) with 0%nat by lia.
  reflexivity.
Qed.

(** X9.  With a search interval that holds no state count
    ([max_n_components < min_n_components]) each searching strategy fits
    no candidate at all: [select()] is the single fit at the fallback
    [n_constant], on the selector's data as it stands. *)
Theorem empty_interval_selects_fallback (h : heap) :
  let s := self h in
  max_n_components s < min_n_components s ->
  candidates s = [] /\
  SelectorBIC_select h = base_model (n_constant s) h /\
  SelectorCV_select h = base_model (n_constant s) h /\
  (~ raises (fst (SelectorDIC_select h)) ->
   SelectorDIC_select h = base_model (n_constant s) h).
Proof.
  cbv zeta. intros Hlt.
  pose proof (range_empty _ _ Hlt) as Hr.
  split; [exact Hr |]. split; [| split].
  - unfold SelectorBIC_select, SelectorBIC_search.
    rewrite bind_run, bind_get_self, Hr. reflexivity.
  - unfold SelectorCV_select, SelectorCV_search.
    rewrite bind_run, bind_get_self. cbv zeta. rewrite Hr. reflexivity.
  - intros Hok. unfold SelectorDIC_select, SelectorDIC_search in *.
    rewrite bind_run, bind_get_self, bind_run,
      SelectorDIC_other_words_run in *.
    destruct (other_words_of _ _ _); simpl in *.
    + rewrite Hr. reflexivity.
    + exfalso. apply Hok. exact I.
Qed.

(** X10.  SelectorConstant, SelectorBIC and SelectorDIC can be asked
    again: a second [select()] on the same selector returns what the first
    one returned, since neither the selector nor the two mappings
    changed. *)
Theorem select_again_returns_the_same (h : heap) :
  fst (SelectorConstant_select (snd (SelectorConstant_select h))) =
    fst (SelectorConstant_select h) /\
  fst (SelectorBIC_select (snd (SelectorBIC_select h))) =
    fst (SelectorBIC_select h) /\
  fst (SelectorDIC_select (snd (SelectorDIC_select h))) =
    fst (SelectorDIC_select h).
Proof.
  split; [| split].
  - pose proof (preserves_objects_SelectorConstant_select h h
                  (same_objects_refl h)) as (_ & _ & Hs).
    unfold SelectorConstant_select at 1 3. rewrite !bind_get_self.
    destruct (base_model_run (n_constant (self h)) h) as [-> _].
    destruct (base_model_run
                (n_constant (self (snd (SelectorConstant_select h))))
                (snd (SelectorConstant_select h))) as [-> _].
    now rewrite Hs.
  - pose proof (preserves_objects_SelectorBIC_select h h
                  (same_objects_refl h)) as (_ & _ & Hs).
    destruct (SelectorBIC_select_run h) as [-> _].
    destruct (SelectorBIC_select_run (snd (SelectorBIC_select h)))
      as [-> _].
    now rewrite Hs.
  - pose proof (preserves_objects_SelectorDIC_select h h
                  (same_objects_refl h)) as (Hw & Hx & Hs).
    set (h' := snd (SelectorDIC_select h)) in *.
    destruct (other_words_of (this_word (self h))
                (dict_keys (all_word_sequences h)) (all_word_Xlengths h))
      as [others |] eqn:Ho.
    + destruct (SelectorDIC_select_run h others Ho) as [-> _].
      assert (Ho' : other_words_of (this_word (self h'))
                      (dict_keys (all_word_sequences h'))
                      (all_word_Xlengths h') = Some others)
        by now rewrite Hw, Hx, Hs.
      destruct (SelectorDIC_select_run h' others Ho') as [-> _].
      now rewrite Hs.
    + rewrite (SelectorDIC_select_keyerror h Ho).
      apply SelectorDIC_select_keyerror. now rewrite Hw, Hx, Hs.
Qed.

End Bounds.

(* ===================================================================== *)
(** ** What the cross-validation search computes                          *)
(* ===================================================================== *)

Section CrossValidationSearch.
Context {EX : Externals} {SC : Scorer}.

Lemma cv_fold_run (h0 h1 : heap) (k : Z) (fold : list nat * list nat) :
  same_config h0 h1 ->
  ok_of (fst (cv_fold k fold h1)) = fold_score (self h0) k fold /\
  same_config h0 (snd (cv_fold k fold h1)).
Proof.
  intros Hc. split; [| now apply preserves_cv_fold].
  destruct Hc as (_ & _ & Hseq & _ & _ & _ & _ & Hrs & _).
  unfold cv_fold, fold_score. destruct fold as [train_index test_index].
  cbn [fst snd]. rewrite bind_get_self, bind_run, Hseq.
  destruct (combine_sequences train_index (sequences (self h0)))
    as [train |]; [| reflexivity].
  cbn [call ret fst snd]. rewrite bind_run.
  remember (snd (set_X_lengths train h1)) as h2 eqn:Eh2.
  assert (Hs2 : self h2 =
                {| sequences := sequences (self h1); X := fst train;
                   lengths := snd train; this_word := this_word (self h1);
                   n_constant := n_constant (self h1);
                   min_n_components := min_n_components (self h1);
                   max_n_components := max_n_components (self h1);
                   random_state := random_state (self h1);
                   verbose := verbose (self h1) |})
    by (subst h2; reflexivity).
  change (fst (set_X_lengths train h1)) with (@Ok unit tt). cbv iota.
  rewrite bind_run.
  destruct (combine_sequences test_index (sequences (self h0)))
    as [[test_X test_lengths] |]; [| reflexivity].
  cbn [call ret fst snd]. rewrite bind_run.
  destruct (base_model_run k h2) as [E _]. rewrite E.
  unfold fit_model. rewrite Hs2. cbn [X lengths random_state]. rewrite Hrs.
  destruct (hmm_fit k 1000 (random_state (self h0)) (fst train) (snd train))
    as [p |]; [| reflexivity].
  unfold model_score, lift, bind, ret, py_score. cbn [fst snd].
  destruct (hmm_score _ test_X test_lengths); reflexivity.
Qed.

Lemma cv_folds_run (h0 : heap) (k : Z) (folds : list (list nat * list nat)) :
  forall cur h1,
    same_config h0 h1 ->
    match fst (for_loop folds
                 (fun fold (_ : option float) =>
                    v <- cv_fold k fold ;; ret (Some v)) cur h1) with
    | Ok o => o
    | Raise _ => None
    end = last_fold_score (self h0) k folds cur /\
    same_config h0
      (snd (for_loop folds
              (fun fold (_ : option float) =>
                 v <- cv_fold k fold ;; ret (Some v)) cur h1)).
Proof.
  induction folds as [| fold rest IH]; intros cur h1 Hc; simpl.
  - now split.
  - rewrite !bind_run.
    destruct (cv_fold_run h0 h1 k fold Hc) as [E Hc'].
    rewrite <- E.
    destruct (fst (cv_fold k fold h1)) as [v | e]; simpl.
    + apply IH. exact Hc'.
    + now split.
Qed.

End CrossValidationSearch.

Section CrossValidationResults.
Context {EX : Externals} {SC : Scorer}.

Lemma cv_stable_refl (h : heap) : cv_stable h h.
Proof. split; [apply same_config_refl | reflexivity]. Qed.

Lemma cv_score_run (h0 h1 : heap) (k : Z) :
  cv_stable h0 h1 ->
  ok_of (fst (cv_score KFold_default k h1)) = cv_outcome (self h0) k /\
  cv_stable h0 (snd (cv_score KFold_default k h1)).
Proof.
  intros [Hc Hsmall].
  assert (Hseq : sequences (self h1) = sequences (self h0)) by apply Hc.
  unfold cv_score, cv_outcome. rewrite bind_get_self, Hseq.
  destruct (Nat.ltb_spec 2 (List.length (sequences (self h0))))
    as [Hlong | Hshort].
  - rewrite bind_run. unfold lift. cbn [fst snd].
    destruct (KFold_split KFold_default (List.length (sequences (self h0))))
      as [folds | e]; cbn [fst snd].
    + rewrite bind_run.
      destruct (cv_folds_run h0 k folds None h1 Hc) as [E Hc'].
      rewrite <- E. split.
      * destruct (fst (for_loop folds _ None h1)) as [[v |] | e];
          reflexivity.
      * split.
        -- destruct (fst (for_loop folds _ None h1)) as [[v |] | e];
             exact Hc'.
        -- intros Hle. lia.
    + split; [reflexivity |]. split; [exact Hc | intros Hle; lia].
  - specialize (Hsmall Hshort). rewrite bind_run.
    destruct (base_model_run k h1) as [E S]. rewrite E.
    assert (Hst : cv_stable h0 (snd (base_model k h1))).
    { split.
      - now apply same_config_objects with h1.
      - intros _. destruct S as (_ & _ & S). now rewrite S. }
    unfold own_score. rewrite Hsmall.
    unfold model_score, lift, bind, ret. cbn [fst snd].
    destruct (fit_model (self h0) k) as [m |]; cbn [py_score].
    + destruct (hmm_score m (X (self h0)) (lengths (self h0)));
        cbn [fst snd ok_of]; split; auto.
    + cbn [fst snd ok_of]. split; auto.
Qed.

Lemma cv_loop_run (cand : Z -> option float) (h0 : heap) :
  (forall k h1, cv_stable h0 h1 ->
     ok_of (fst (cv_score KFold_default k h1)) = cand k /\
     cv_stable h0 (snd (cv_score KFold_default k h1))) ->
  forall l acc h1, cv_stable h0 h1 ->
    let loop :=
      for_loop l
        (fun num '(log_likelihoods, max_avg, best_num_components) =>
           try_except
             (v <- cv_score KFold_default num ;;
              let log_likelihoods := log_likelihoods ++ [v] in
              let cv_score_avg := np_mean log_likelihoods in
              if fltb max_avg cv_score_avg
              then ret (log_likelihoods, cv_score_avg, num)
              else ret (log_likelihoods, max_avg, best_num_components))
             (ret (log_likelihoods, max_avg, best_num_components))) acc in
    fst (loop h1) = Ok (cv_search cand l acc) /\
    cv_stable h0 (snd (loop h1)).
Proof.
  intros Hscore. induction l as [| a l IH]; intros acc h1 Hh; simpl.
  - split; auto.
  - rewrite bind_run. destruct acc as [[lls mavg] best].
    rewrite try_except_run, bind_run.
    destruct (Hscore a h1 Hh) as [Ec Hs].
    change (cv_search cand (a :: l) (lls, mavg, best))
      with (cv_search cand l (cv_pick cand (lls, mavg, best) a)).
    unfold cv_pick. rewrite <- Ec.
    destruct (fst (cv_score KFold_default a h1)) as [v | e];
      cbn [ok_of fst snd].
    + destruct (fltb mavg (np_mean (lls ++ [v]))); cbn [fst snd];
        apply IH; exact Hs.
    + apply IH; exact Hs.
Qed.

Lemma SelectorCV_search_run (h : heap) :
  fst (SelectorCV_search h) =
    Ok (cv_search (cv_outcome (self h)) (candidates (self h))
          ([], neg_inf, n_constant (self h))) /\
  cv_stable h (snd (SelectorCV_search h)).
Proof.
  unfold SelectorCV_search. rewrite bind_get_self. cbv zeta.
  apply (cv_loop_run (cv_outcome (self h)) h).
  - intros k h1. apply cv_score_run.
  - apply cv_stable_refl.
Qed.

(** X11.  The cross-validation search is a running-mean search over one
    outcome per candidate.  For a word with more than two sequences the
    outcome of [k] is the test score of the last fold, and only if every
    fold fits on its train sequences and scores its test sequences; for a
    shorter word it is the score of the model fit on all the data against
    that same data.  A word with at most two sequences keeps its data:
    [select()] then leaves the selector as it was and returns the model fit
    on the full data at the selected count. *)
Theorem SelectorCV_search_is_running_mean_search (h : heap) :
  let s := self h in
  let r := cv_search (cv_outcome s) (candidates s)
             ([], neg_inf, n_constant s) in
  fst (SelectorCV_search h) = Ok r /\
  (forall k, (2 < List.length (sequences s))%nat ->
     exists f1 f2 f3,
       KFold_split KFold_default (List.length (sequences s)) =
         Ok [f1; f2; f3] /\
       cv_outcome s k =
         match fold_score s k f1, fold_score s k f2 with
         | Some _, Some _ => fold_score s k f3
         | _, _ => None
         end) /\
  (forall k, (List.length (sequences s) <= 2)%nat ->
     cv_outcome s k = own_score s k) /\
  ((List.length (sequences s) <= 2)%nat ->
   self (snd (SelectorCV_select h)) = s /\
   fst (SelectorCV_select h) = Ok (fit_model s (snd r))).
Proof.
  cbv zeta. destruct (SelectorCV_search_run h) as [E [Hc Hsmall]].
  split; [exact E |]. split; [| split].
  - intros k Hlong.
    destruct (KFold_default_split _ Hlong) as (f1 & f2 & f3 & Hs & _).
    exists f1, f2, f3. split; [exact Hs |].
    unfold cv_outcome. rewrite (proj2 (Nat.ltb_lt _ _) Hlong), Hs. simpl.
    destruct (fold_score (self h) k f1); auto.
    destruct (fold_score (self h) k f2); auto.
    now destruct (fold_score (self h) k f3).
  - intros k Hshort. unfold cv_outcome.
    destruct (Nat.ltb_spec 2 (List.length (sequences (self h))));
      [lia | reflexivity].
  - intros Hshort. specialize (Hsmall Hshort).
    unfold SelectorCV_select. rewrite bind_run, E.
    set (r := cv_search _ _ _). destruct r as [[lls mavg] best] eqn:Er.
    cbn [fst snd].
    destruct (base_model_run best (snd (SelectorCV_search h))) as [E' S'].
    rewrite E', Hsmall. split; [| reflexivity].
    destruct S' as (_ & _ & S'). now rewrite S'.
Qed.

Lemma cv_search_app (cand : Z -> option float) (l1 l2 : list Z)
    (init : list float * float * Z) :
  cv_search cand (l1 ++ l2) init =
  cv_search cand l2 (cv_search cand l1 init).
Proof. unfold cv_search. apply fold_left_app. Qed.

Lemma outcomes_app (cand : Z -> option float) (l1 l2 : list Z) :
  outcomes cand (l1 ++ l2) = outcomes cand l1 ++ outcomes cand l2.
Proof. unfold outcomes. apply flat_map_app. Qed.

Lemma outcomes_length (cand : Z -> option float) (l : list Z) :
  (List.length (outcomes cand l) <= List.length l)%nat.
Proof.
  induction l as [| a l IH]; simpl; auto.
  destruct (cand a); simpl; lia.
Qed.

Lemma cv_search_list (cand : Z -> option float) (l : list Z)
    (init : list float * float * Z) :
  let r := cv_search cand l init in
  fst (fst r) = fst (fst init) ++ outcomes cand l /\
  ((snd (fst r), snd r) = (snd (fst init), snd init) \/
   exists l1 l2,
     l = l1 ++ snd r :: l2 /\
     snd (fst r) =
       np_mean (fst (fst init) ++ outcomes cand (l1 ++ [snd r]))).
Proof.
  cbv zeta. induction l as [| a l IH] using rev_ind.
  - simpl. split; [now rewrite app_nil_r | now left].
  - destruct IH as [IH1 IH2].
    assert (Ho : outcomes cand (l ++ [a]) =
                 outcomes cand l ++
                 match cand a with Some v => [v] | None => [] end).
    { rewrite outcomes_app. f_equal. unfold outcomes. simpl.
      apply app_nil_r. }
    rewrite cv_search_app.
    change (cv_search cand [a] (cv_search cand l init))
      with (cv_pick cand (cv_search cand l init) a).
    set (acc := cv_search cand l init) in *.
    rewrite Ho. unfold cv_pick.
    destruct (cand a) as [v |] eqn:Ea.
    + destruct (fltb (snd (fst acc)) (np_mean (fst (fst acc) ++ [v])));
        cbn [fst snd].
      * split; [now rewrite IH1, app_assoc |].
        right. exists l, []. split; [reflexivity |].
        now rewrite Ho, ?Ea, IH1, app_assoc.
      * split; [now rewrite IH1, app_assoc |].
        destruct IH2 as [IH2 | (l1 & l2 & El & Em)]; [now left |].
        right. exists l1, (l2 ++ [a]). split; [| exact Em].
        rewrite El at 1. rewrite <- app_assoc. reflexivity.
    + split; [now rewrite IH1, !app_nil_r |].
      destruct IH2 as [IH2 | (l1 & l2 & El & Em)]; [now left |].
      right. exists l1, (l2 ++ [a]). split; [| exact Em].
      rewrite El at 1. rewrite <- app_assoc. reflexivity.
Qed.

(** X12.  The running list of log-likelihoods is never reset between
    candidates: after the search it holds, in ascending order of state
    count, one score for each candidate that could be cross-validated, so
    never more entries than candidates.  The average a candidate is
    judged by is the mean of all the scores gathered up to and including
    its own: when the search ends on a candidate [best], [max_avg] is that
    mean; otherwise the search ends on the fallback with [max_avg] at
    minus infinity. *)
Theorem SelectorCV_averages_over_all_candidates_so_far (h : heap) :
  let s := self h in
  exists log_likelihoods max_avg best,
    fst (SelectorCV_search h) = Ok (log_likelihoods, max_avg, best) /\
    log_likelihoods = outcomes (cv_outcome s) (candidates s) /\
    (List.length log_likelihoods <= List.length (candidates s))%nat /\
    ((max_avg, best) = (neg_inf, n_constant s) \/
     exists l1 l2,
       candidates s = l1 ++ best :: l2 /\
       max_avg = np_mean (outcomes (cv_outcome s) (l1 ++ [best]))).
Proof.
  cbv zeta. destruct (SelectorCV_search_run h) as [E _].
  destruct (cv_search_list (cv_outcome (self h)) (candidates (self h))
              ([], neg_inf, n_constant (self h))) as [Hl Hm].
  set (r := cv_search _ _ _) in *. destruct r as [[lls mavg] best].
  cbn [fst snd] in Hl, Hm. simpl in Hl.
  exists lls, mavg, best. split; [exact E |]. split; [exact Hl |].
  split; [rewrite Hl; apply outcomes_length | exact Hm].
Qed.

End CrossValidationResults.

Section CrossValidationData.
Context {EX : Externals} {SC : Scorer}.

Hint Resolve preserves_ret preserves_raise preserves_lift preserves_call
  preserves_get_self preserves_model_score : frame.

Lemma holds_train_data_objects (h0 h1 h2 : heap) :
  holds_train_data h0 h1 -> same_objects h1 h2 -> holds_train_data h0 h2.
Proof.
  intros [Hc (fold & folds & Hs & Hin & Hd)] S. split.
  - now apply same_config_objects with h1.
  - exists fold, folds. destruct S as (_ & _ & S). now rewrite S.
Qed.

Lemma preserves_train_data_base_model (h0 : heap) (k : Z) :
  preserves (holds_train_data h0) (base_model k).
Proof.
  intros h1 H. apply holds_train_data_objects with h1; auto.
  apply base_model_run.
Qed.

(** A fold whose train sequences can be combined leaves them in the
    selector, whether the fold then fits and scores or not. *)
Lemma cv_fold_leaves_train_data (h0 h1 : heap) (k : Z)
    (fold : list nat * list nat) (folds : list (list nat * list nat)) :
  same_config h0 h1 ->
  KFold_split KFold_default (List.length (sequences (self h0))) = Ok folds ->
  In fold folds ->
  combine_sequences (fst fold) (sequences (self h0)) <> None ->
  holds_train_data h0 (snd (cv_fold k fold h1)).
Proof.
  intros Hc Hs Hin Hsome.
  assert (Hseq : sequences (self h1) = sequences (self h0)) by apply Hc.
  unfold cv_fold. destruct fold as [train_index test_index].
  cbn [fst snd] in Hsome. rewrite bind_get_self, bind_run, Hseq.
  destruct (combine_sequences train_index (sequences (self h0)))
    as [train |] eqn:Et; [| congruence].
  cbn [call ret fst snd]. rewrite bind_run.
  change (fst (set_X_lengths train h1)) with (@Ok unit tt). cbv iota.
  pose proof (preserves_train_data_base_model h0) as Pb.
  assert (P : preserves (holds_train_data h0)
                ('(test_X, test_lengths) <-
                   call (combine_sequences test_index (sequences (self h0))) ;;
                 model <- base_model k ;;
                 log_likelihood <- model_score model test_X test_lengths ;;
                 ret log_likelihood)).
  { preserve_all. }
  apply P. split.
  - exact Hc.
  - exists (train_index, test_index), folds.
    split; [exact Hs |]. split; [exact Hin |].
    cbn [fst]. rewrite Et. now destruct train.
Qed.

Lemma cv_score_leaves_train_data (h0 h1 : heap) (k : Z) :
  (2 < List.length (sequences (self h0)))%nat ->
  (forall fold folds,
     KFold_split KFold_default (List.length (sequences (self h0))) =
       Ok folds ->
     In fold folds ->
     combine_sequences (fst fold) (sequences (self h0)) <> None) ->
  same_config h0 h1 ->
  holds_train_data h0 (snd (cv_score KFold_default k h1)).
Proof.
  intros Hlong Hcomb Hc.
  assert (Hseq : sequences (self h1) = sequences (self h0)) by apply Hc.
  destruct (KFold_default_split _ Hlong) as (f1 & f2 & f3 & Hs & _).
  rewrite (cv_score_three_folds KFold_default k h1 f1 f2 f3)
    by (rewrite Hseq; assumption).
  assert (Hf : forall f h2, In f [f1; f2; f3] -> same_config h0 h2 ->
                 holds_train_data h0 (snd (cv_fold k f h2))).
  { intros f h2 Hin Hc2.
    apply (cv_fold_leaves_train_data h0 h2 k f [f1; f2; f3]); auto.
    now apply (Hcomb f [f1; f2; f3]). }
  pose proof (Hf f1 h1 (or_introl eq_refl) Hc) as H1.
  rewrite bind_run.
  destruct (fst (cv_fold k f1 h1)); cbn [snd]; [| exact H1].
  pose proof (Hf f2 _ (or_intror (or_introl eq_refl)) (proj1 H1)) as H2.
  rewrite bind_run.
  destruct (fst (cv_fold k f2 _)); cbn [snd]; [| exact H2].
  apply Hf; [simpl; auto | exact (proj1 H2)].
Qed.

(** A loop over a non-empty list ends in what each of its iterations
    establishes. *)
Lemma for_loop_establishes {A S : Type} (I J : heap -> Prop) (l : list A)
    (body : A -> S -> M S) :
  (forall h, J h -> I h) ->
  (forall a s h, I h -> J (snd (body a s h))) ->
  l <> [] ->
  forall s h, I h -> J (snd (for_loop l body s h)).
Proof.
  intros HJI Hb. induction l as [| a l IH]; intros Hne s h Hh; [congruence |].
  simpl. rewrite bind_run. specialize (Hb a s h Hh).
  destruct (fst (body a s h)) as [s' | e]; cbn [snd]; auto.
  destruct l as [| b l']; [exact Hb |].
  apply IH; [discriminate | auto].
Qed.

(** X13.  For a word with more than two sequences and a non-empty search
    interval, [select()] of SelectorCV ends with the train sequences of one
    of the three folds as the selector's [X] and [lengths], and the model
    it returns is fit on those sequences (on the sequences of the fold's
    train indices, not on all sequences of the word), provided the train
    sequences of every fold can be combined. *)
Theorem SelectorCV_returns_model_fit_on_train_fold (h : heap) :
  let s := self h in
  let h' := snd (SelectorCV_select h) in
  (2 < List.length (sequences s))%nat ->
  min_n_components s <= max_n_components s ->
  (forall fold folds,
     KFold_split KFold_default (List.length (sequences s)) = Ok folds ->
     In fold folds ->
     combine_sequences (fst fold) (sequences s) <> None) ->
  exists fold folds train best,
    KFold_split KFold_default (List.length (sequences s)) = Ok folds /\
    In fold folds /\
    combine_sequences (fst fold) (sequences s) = Some train /\
    (X (self h'), lengths (self h')) = train /\
    fst (SelectorCV_select h) =
      Ok (match hmm_fit best 1000 (random_state s) (fst train) (snd train)
          with
          | Some p => Some {| n_components := best;
                              n_features := shape1 (fst train);
                              params := p |}
          | None => None
          end).
Proof.
  cbv zeta. intros Hlong Hint Hcomb.
  assert (Hne : candidates (self h) <> []).
  { intros E.
    assert (Hin : In (min_n_components (self h)) (candidates (self h))).
    { unfold candidates, range. apply in_map_iff. exists 0%nat.
      split; [lia |]. apply in_seq. lia. }
    rewrite E in Hin. destruct Hin. }
  assert (Hsearch : holds_train_data h (snd (SelectorCV_search h))).
  { unfold SelectorCV_search. rewrite bind_get_self. cbv zeta.
    apply for_loop_establishes with (I := same_config h); auto.
    - intros h1 H1. apply H1.
    - intros num [[lls mavg] best] h1 H1.
      rewrite try_except_run, bind_run.
      pose proof (cv_score_leaves_train_data h h1 num Hlong Hcomb H1) as HJ.
      destruct (fst (cv_score KFold_default num h1)) as [v | e];
        cbn [snd]; auto.
      destruct (fltb mavg (np_mean (lls ++ [v]))); exact HJ.
    - apply same_config_refl. }
  destruct (SelectorCV_search_best h) as ([[lls mavg] best] & E & _).
  unfold SelectorCV_select. rewrite bind_run, E. cbn [fst snd].
  destruct (base_model_run best (snd (SelectorCV_search h))) as [E' S'].
  pose proof (holds_train_data_objects _ _ _ Hsearch S')
    as [Hc (fold & folds & Hs & Hin & Hd)].
  exists fold, folds, (X (self (snd (base_model best
                                        (snd (SelectorCV_search h))))),
                       lengths (self (snd (base_model best
                                        (snd (SelectorCV_search h)))))),
    best.
  split; [exact Hs |]. split; [exact Hin |]. split; [exact Hd |].
  split; [reflexivity |]. rewrite E'. unfold fit_model. cbn [fst snd].
  destruct S' as (_ & _ & S'). rewrite S'.
  replace (random_state (self h))
    with (random_state (self (snd (SelectorCV_search h))));
    [reflexivity | apply Hsearch].
Qed.

End CrossValidationData.

Section MoreWitnesses.
#[local] Existing Instance Demo.externals.
#[local] Existing Instance Demo.scorer.

Lemma SelectorDIC_other_words_are_the_other_entries_witness :
  map Ok [([10; 11], [2]); ([7; 8; 9; 8; 7], [5])] =
    map (dict_get String.eqb (all_word_Xlengths Scenario.selector_A))
        ["B"%string; "D"%string] /\
  snd (SelectorDIC_other_words Scenario.selector_A) = Scenario.selector_A.
Proof.
  destruct (SelectorDIC_other_words_are_the_other_entries
              Scenario.selector_A
              [([10; 11], [2]); ([7; 8; 9; 8; 7], [5])])
    as (Hm & Hs & _).
  - reflexivity.
  - split; [exact Hm | exact Hs].
Defined.

Lemma SelectorDIC_alone_returns_fallback_witness :
  fst (SelectorDIC_search Cases.lone_selector_A) = Ok (Demo.NInf, 3) /\
  fst (SelectorDIC_select Cases.lone_selector_A) =
    Ok (fit_model (self Cases.lone_selector_A) 3).
Proof.
  destruct (SelectorDIC_alone_returns_fallback Cases.lone_selector_A)
    as (_ & _ & Hs & Hm).
  - intros word [<- | []]. reflexivity.
  - intros [| | z |]; reflexivity.
  - split; [exact Hs | exact Hm].
Defined.

Lemma empty_interval_selects_fallback_witness :
  SelectorBIC_select Cases.selector_A_empty_interval =
    base_model 3 Cases.selector_A_empty_interval /\
  SelectorCV_select Cases.selector_A_empty_interval =
    base_model 3 Cases.selector_A_empty_interval /\
  SelectorDIC_select Cases.selector_A_empty_interval =
    base_model 3 Cases.selector_A_empty_interval.
Proof.
  destruct (empty_interval_selects_fallback Cases.selector_A_empty_interval)
    as (_ & HB & HC & HD).
  - simpl. lia.
  - split; [exact HB |]. split; [exact HC |]. apply HD.
    vm_compute. intros F. exact F.
Defined.

Lemma SelectorCV_returns_model_fit_on_train_fold_witness :
  exists fold folds train best,
    KFold_split KFold_default 3 = Ok folds /\
    In fold folds /\
    Demo.combine (fst fold) Scenario.seqs_A = Some train /\
    (X (self (snd (SelectorCV_select Scenario.selector_A))),
     lengths (self (snd (SelectorCV_select Scenario.selector_A)))) = train /\
    fst (SelectorCV_select Scenario.selector_A) =
      Ok (match hmm_fit best 1000 14 (fst train) (snd train) with
          | Some p => Some {| n_components := best;
                              n_features := shape1 (fst train);
                              params := p |}
          | None => None
          end).
Proof.
  apply (SelectorCV_returns_model_fit_on_train_fold Scenario.selector_A).
  - simpl. lia.
  - simpl. lia.
  - intros fold folds E Hin. vm_compute in E. inversion E; subst folds.
    destruct Hin as [<- | [<- | [<- | []]]]; vm_compute; discriminate.
Defined.

End MoreWitnesses.

Section NoSequences.
Context {EX : Externals} {SC : Scorer}.

(** X14.  For a word without training sequences no candidate gets a BIC
    score: [math.log(len(self.sequences))] is a domain error at 0, which
    the search absorbs like a failed fit, so [score_BIC] raises for every
    state count and [select()] returns the fit at the fallback
    [n_constant]. *)
Theorem SelectorBIC_without_sequences_returns_fallback (h : heap) :
  let s := self h in
  sequences s = [] ->
  (forall k, raises (fst (score_BIC k h))) /\
  fst (SelectorBIC_search h) = Ok (inf, n_constant s) /\
  fst (SelectorBIC_select h) = Ok (fit_model s (n_constant s)).
Proof.
  cbv zeta. intros Hs.
  assert (Hspec : forall k, BIC_spec (self h) k = None).
  { intros k. unfold BIC_spec. rewrite Hs. simpl.
    destruct (fit_model (self h) k); auto.
    now destruct (hmm_score _ _ _). }
  split; [| split].
  - intros k. apply ok_of_None.
    destruct (score_BIC_run k h) as [-> _]. apply Hspec.
  - destruct (SelectorBIC_search_run h) as [-> _].
    now rewrite search_all_fail.
  - destruct (SelectorBIC_select_run h) as [-> _].
    now rewrite search_all_fail.
Qed.

End NoSequences.

Section NoSequencesWitness.
#[local] Existing Instance Demo.externals.
#[local] Existing Instance Demo.scorer.

Lemma SelectorBIC_without_sequences_returns_fallback_witness :
  fst (SelectorBIC_search Cases.selector_E_no_sequences) =
    Ok (Demo.PInf, 3) /\
  fst (SelectorBIC_select Cases.selector_E_no_sequences) = Ok None.
Proof.
  destruct (SelectorBIC_without_sequences_returns_fallback
              Cases.selector_E_no_sequences) as (_ & Hs & Hm).
  - reflexivity.
  - split; [exact Hs | exact Hm].
Defined.

End NoSequencesWitness.
